(** * The MATRIX microphone-array capture driver (src/src/matrixio-mic.c)

    A shallow embedding of the capture data path: the rate table, the ALSA
    callbacks (open, close, hw_params, hw_free, prepare, trigger, pointer),
    the hard-IRQ top half and the threaded bottom half.  The work-queue
    driver of src/matrixio-pcm.c is embedded in module [Pcm].

    Conventions.
    - C integers are [Z].  The published position is an [atomic_t] (a 32-bit
      [int]); the bottom half computes on it as [unsigned long].  Both
      conversions are written out ([to_int], [to_ulong]).
    - [ms->flags] is a [Z] handled with [Z.testbit], [Z.setbit], [Z.clearbit].
    - Pointers to substreams are identifiers into a store of runtimes; the
      global [ms] holds such an identifier (or NULL, [None]).
    - The ring ([runtime->dma_area]) is a memory of 16-bit words addressed by
      word offset from its base: the C code writes through a raw pointer and
      performs no bounds check.  Offsets into the ring and into the fragment
      buffer are computed exactly.
    - Everything the driver asks of its environment (bus transfers, register
      writes, log messages, barriers, atomic bit operations, lock operations,
      notifications) is appended, in program order, to a trace kept in the
      state. *)

From stdpp Require Import gmap list.
From Stdlib Require Import ZArith Lia.

Open Scope Z_scope.

(** ** Kernel constants used by the driver *)

Definition ENOMEM : Z := 12.
Definition EBUSY : Z := 16.
Definition EINVAL : Z := 22.

Definition SNDRV_PCM_TRIGGER_STOP : Z := 0.
Definition SNDRV_PCM_TRIGGER_START : Z := 1.

Inductive irqreturn_t := IRQ_NONE | IRQ_HANDLED | IRQ_WAKE_THREAD.

(** Sample formats ([snd_pcm_format_t]) and the kernel's width table for
    them ([snd_pcm_format_width], sound/core/pcm_misc.c). *)
Inductive snd_pcm_format_t :=
| SNDRV_PCM_FORMAT_S8 | SNDRV_PCM_FORMAT_U8
| SNDRV_PCM_FORMAT_S16_LE | SNDRV_PCM_FORMAT_S16_BE
| SNDRV_PCM_FORMAT_U16_LE | SNDRV_PCM_FORMAT_U16_BE
| SNDRV_PCM_FORMAT_S24_LE | SNDRV_PCM_FORMAT_S24_BE
| SNDRV_PCM_FORMAT_S32_LE | SNDRV_PCM_FORMAT_S32_BE
| SNDRV_PCM_FORMAT_FLOAT_LE | SNDRV_PCM_FORMAT_FLOAT64_LE
| SNDRV_PCM_FORMAT_MU_LAW | SNDRV_PCM_FORMAT_A_LAW.

Definition snd_pcm_format_width (f : snd_pcm_format_t) : Z :=
  match f with
  | SNDRV_PCM_FORMAT_S8 | SNDRV_PCM_FORMAT_U8 => 8
  | SNDRV_PCM_FORMAT_S16_LE | SNDRV_PCM_FORMAT_S16_BE
  | SNDRV_PCM_FORMAT_U16_LE | SNDRV_PCM_FORMAT_U16_BE => 16
  | SNDRV_PCM_FORMAT_S24_LE | SNDRV_PCM_FORMAT_S24_BE => 24
  | SNDRV_PCM_FORMAT_S32_LE | SNDRV_PCM_FORMAT_S32_BE => 32
  | SNDRV_PCM_FORMAT_FLOAT_LE => 32
  | SNDRV_PCM_FORMAT_FLOAT64_LE => 64
  | SNDRV_PCM_FORMAT_MU_LAW | SNDRV_PCM_FORMAT_A_LAW => 8
  end.

(** ** Integer conversions *)

(** Value of an [int] holding the low 32 bits of [z]. *)
Definition to_int (z : Z) : Z := (z + 2 ^ 31) mod 2 ^ 32 - 2 ^ 31.

(** ** Data model *)

(** One row of [matrixio_params]. *)
Record rate_params := {
  rate : Z;
  decimation : Z;
  gain : Z
}.

Definition matrixio_params : list rate_params :=
  [ {| rate := 8000; decimation := 374; gain := 1 |};
    {| rate := 12000; decimation := 249; gain := 2 |};
    {| rate := 16000; decimation := 186; gain := 3 |};
    {| rate := 22050; decimation := 135; gain := 5 |};
    {| rate := 24000; decimation := 124; gain := 5 |};
    {| rate := 32000; decimation := 92; gain := 6 |};
    {| rate := 44100; decimation := 67; gain := 7 |};
    {| rate := 48000; decimation := 61; gain := 7 |};
    {| rate := 96000; decimation := 30; gain := 10 |} ].

(** One element of the [FIR_Coeff] array of fir_coeff.h. *)
Record fir_entry := {
  rate_ : Z;
  coeff_ : list Z
}.

(** The part of [struct snd_pcm_hw_params] the driver and the PCM core read. *)
Record snd_pcm_hw_params := {
  params_format : snd_pcm_format_t;
  params_rate : Z;
  params_channels : Z;
  params_period_size : Z;
  params_buffer_size : Z;
  params_buffer_bytes : Z
}.

(** The part of [struct snd_pcm_runtime] the driver reads or writes.
    [dma_area = None] is the NULL pointer. *)
Record snd_pcm_runtime := {
  dma_area : option (gmap Z Z);
  dma_bytes : Z;
  channels : Z;
  period_size : Z;
  buffer_size : Z
}.

(** [struct matrixio_mic_substream], the driver state behind the global
    [ms].  [worker_lock] has no field: the lock shows as the atomicity of the
    sections it protects and as [SpinLock]/[SpinUnlock] in the trace. *)
Record matrixio_mic_substream := {
  irq : Z;
  substream : option nat;
  frag_buffer : list Z;
  position : Z;
  flags : Z
}.

Inductive message :=
| MsgSpiReadFailed (ret : Z)
| MsgDmaBufferMissing
| MsgPossibleOverflow
| MsgNeedFrames (want got : Z)
| MsgStopping
| MsgStopped.

(** What the driver does to its environment, in program order. *)
Inductive effect :=
| RegmapWrite (reg val : Z)
| MatrixioWrite (base len : Z) (data : list Z)
| MatrixioRead (base len : Z)
| SmpMb
| SetBit (nr : Z)
| ClearBit (nr : Z)
| TestAndSetBit (nr : Z)
| SpinLock
| SpinUnlock
| PcmErr (m : message)
| PcmWarn (m : message)
| PcmDbg (m : message)
| SndBug
| PeriodElapsed (sub : nat)
| RequestThreadedIrq (line : Z)
| FreeIrq (line : Z)
| SetRuntimeHwparams (sub : nat)
| HwConstraintInteger (sub : nat)
| HwConstraintStep (sub : nat) (step : Z)
| HwConstraintSingle (sub : nat) (val : Z)
| SetSync (sub : nat).

(** The driver state, the runtimes of the substreams that exist, and the
    trace. *)
Record kstate := {
  ms : matrixio_mic_substream;
  pcm : gmap nat snd_pcm_runtime;
  klog : list effect
}.

(** Outcome of one [matrixio_read]: its return value and the contents of the
    destination buffer afterwards. *)
Record read_outcome := {
  rd_ret : Z;
  rd_frag : list Z
}.

(** *** Field updates *)

Definition set_substream (s : option nat) (m : matrixio_mic_substream) :=
  {| irq := irq m; substream := s; frag_buffer := frag_buffer m;
     position := position m; flags := flags m |}.

Definition set_frag_buffer (f : list Z) (m : matrixio_mic_substream) :=
  {| irq := irq m; substream := substream m; frag_buffer := f;
     position := position m; flags := flags m |}.

Definition set_position (p : Z) (m : matrixio_mic_substream) :=
  {| irq := irq m; substream := substream m; frag_buffer := frag_buffer m;
     position := p; flags := flags m |}.

Definition set_flags (f : Z) (m : matrixio_mic_substream) :=
  {| irq := irq m; substream := substream m; frag_buffer := frag_buffer m;
     position := position m; flags := f |}.

Definition set_dma (a : option (gmap Z Z)) (bytes : Z) (r : snd_pcm_runtime) :=
  {| dma_area := a; dma_bytes := bytes; channels := channels r;
     period_size := period_size r; buffer_size := buffer_size r |}.

Definition with_ms (f : matrixio_mic_substream -> matrixio_mic_substream)
    (st : kstate) : kstate :=
  {| ms := f (ms st); pcm := pcm st; klog := klog st |}.

Definition with_runtime (sub : nat) (r : snd_pcm_runtime) (st : kstate) : kstate :=
  {| ms := ms st; pcm := <[sub := r]> (pcm st); klog := klog st |}.

Definition emit (es : list effect) (st : kstate) : kstate :=
  {| ms := ms st; pcm := pcm st; klog := klog st ++ es |}.

(** *** Atomic operations on [ms] *)

Definition test_bit (nr : Z) (st : kstate) : bool := Z.testbit (flags (ms st)) nr.

Definition set_bit (nr : Z) (st : kstate) : kstate :=
  emit [SetBit nr] (with_ms (set_flags (Z.setbit (flags (ms st)) nr)) st).

Definition clear_bit (nr : Z) (st : kstate) : kstate :=
  emit [ClearBit nr] (with_ms (set_flags (Z.clearbit (flags (ms st)) nr)) st).

Definition test_and_set_bit (nr : Z) (st : kstate) : bool * kstate :=
  (Z.testbit (flags (ms st)) nr,
   emit [TestAndSetBit nr] (with_ms (set_flags (Z.setbit (flags (ms st)) nr)) st)).

Definition atomic_set_position (v : Z) (st : kstate) : kstate :=
  with_ms (set_position (to_int v)) st.

Definition atomic_read_position (st : kstate) : Z := position (ms st).

(** Value of an [unsigned int] holding the low 32 bits of [z]. *)
Definition to_uint (z : Z) : Z := z mod 2 ^ 32.

(** ** The PCM core's vmalloc buffer helpers (sound/core/pcm_memory.c)

    [vmalloc_ok] tells whether the allocator has memory.  A buffer that is
    already large enough is kept (return value 0); a fresh one has no word
    initialised (return value 1). *)
Definition snd_pcm_lib_alloc_vmalloc_buffer (vmalloc_ok : bool) (size : Z)
    (r : snd_pcm_runtime) : Z * snd_pcm_runtime :=
  let fresh :=
    if vmalloc_ok then (1, set_dma (Some ∅) size r)
    else (- ENOMEM, set_dma None (dma_bytes r) r) in
  match dma_area r with
  | Some _ => if size <=? dma_bytes r then (0, r) else fresh
  | None => fresh
  end.

Definition snd_pcm_lib_free_vmalloc_buffer (r : snd_pcm_runtime) : Z * snd_pcm_runtime :=
  (0, set_dma None (dma_bytes r) r).

(** [frames_to_bytes]: [size * runtime->frame_bits / 8], where the PCM core
    keeps [frame_bits] at sample width times channels; every format that
    [matrixio_pcm_hw_params] lets through is 16 bits wide. *)
Definition frame_bits (r : snd_pcm_runtime) : Z := 16 * channels r.

Definition frames_to_bytes (r : snd_pcm_runtime) (size : Z) : Z :=
  size * frame_bits r / 8.

Definition snd_pcm_lib_period_bytes (r : snd_pcm_runtime) : Z :=
  frames_to_bytes r (period_size r).

(** ** The rate table loop and the FIR table loop of hw_params *)

(** [for (i = 0; i < ARRAY_SIZE(matrixio_params); i++) if (rate == ...) break;]
    The comparison is between an [int] and an [unsigned]: it is made on the
    unsigned value of [r]. *)
Fixpoint lookup_rate (r : Z) (tbl : list rate_params) : option rate_params :=
  match tbl with
  | [] => None
  | e :: tbl' => if to_uint r =? rate e then Some e else lookup_rate r tbl'
  end.

(** [for (i = 0; FIR_Coeff[i].rate_; i++) if (FIR_Coeff[i].rate_ == rate) break;]
    The array ends at its first entry of rate 0 (the sentinel). *)
Fixpoint lookup_fir (r : Z) (tbl : list fir_entry) : option fir_entry :=
  match tbl with
  | [] => None
  | e :: tbl' =>
      if rate_ e =? 0 then None
      else if rate_ e =? r then Some e
      else lookup_fir r tbl'
  end.

(** Reading [ms->frag_buffer[k]].  Past the end of the buffer the model
    reads 0; the statements about the copy keep [k] inside. *)
Definition frag_at (frag : list Z) (k : Z) : Z := nth (Z.to_nat k) frag 0.

(** ** The work-queue driver (src/matrixio-pcm.c)

    The other source file of the repository: a capture driver that reads one
    block per interrupt from a work item.  Its functions bear the names of
    those of matrixio-mic.c, hence the module. *)
Module Pcm.

Definition MATRIXIO_MICARRAY_BASE : Z := 8192.
Definition MATRIXIO_MICARRAY_BUFFER_SIZE : Z := 256 * 1 * 2.

Definition SNDRV_PCM_TRIGGER_PAUSE_PUSH : Z := 3.
Definition SNDRV_PCM_TRIGGER_PAUSE_RELEASE : Z := 4.
Definition SNDRV_PCM_TRIGGER_SUSPEND : Z := 5.
Definition SNDRV_PCM_TRIGGER_RESUME : Z := 6.

Inductive effect :=
| SetRuntimeHwparams (sub : nat)
| KfifoReset
| FlushWorkqueue
| InitWork
| QueueWork
| MutexLock
| MutexUnlock
| MatrixioRead (base len : Z) (at_word : Z)
| PeriodElapsed (sub : option nat)
| Printk
| CopyToUser (words : list (option Z)) (bytes : Z).

(** The file's globals: [position], [ms->capture_substream], [matrixio_buf]
    (its 8 rows of 8192 words seen as one run of words, row 0 first; the code
    addresses it as [&matrixio_buf[0][n]] throughout), the [initialized] flag
    of the interrupt handler, and the trace. *)
Record state := {
  position : Z;
  capture_substream : option nat;
  matrixio_buf : gmap Z Z;
  initialized : bool;
  log : list effect
}.

Definition emit (es : list effect) (st : state) : state :=
  {| position := position st; capture_substream := capture_substream st;
     matrixio_buf := matrixio_buf st; initialized := initialized st;
     log := log st ++ es |}.

Definition set_position (p : Z) (st : state) : state :=
  {| position := p; capture_substream := capture_substream st;
     matrixio_buf := matrixio_buf st; initialized := initialized st;
     log := log st |}.

Definition set_capture_substream (s : option nat) (st : state) : state :=
  {| position := position st; capture_substream := s;
     matrixio_buf := matrixio_buf st; initialized := initialized st;
     log := log st |}.

Definition set_matrixio_buf (b : gmap Z Z) (st : state) : state :=
  {| position := position st; capture_substream := capture_substream st;
     matrixio_buf := b; initialized := initialized st; log := log st |}.

Definition set_initialized (st : state) : state :=
  {| position := position st; capture_substream := capture_substream st;
     matrixio_buf := matrixio_buf st; initialized := true; log := log st |}.

(** The bus stores [words] from word [at_word] on. *)
Fixpoint store_words (at_word : Z) (words : list Z) (buf : gmap Z Z) : gmap Z Z :=
  match words with
  | [] => buf
  | w :: words' => store_words (at_word + 1) words' (<[at_word := w]> buf)
  end.

(** The words from [at_word] on, [n] of them ([None]: never written). *)
Definition load_words (at_word : Z) (n : nat) (buf : gmap Z Z) : list (option Z) :=
  map (fun i => buf !! (at_word + Z.of_nat i)) (seq 0 n).

Definition matrixio_pcm_interrupt (st : state) : irqreturn_t * state :=
  match capture_substream st with
  | None => (IRQ_NONE, st)
  | Some _ =>
      let st := if initialized st then st else set_initialized (emit [InitWork] st) in
      (IRQ_HANDLED, emit [QueueWork] st)
  end.

Definition matrixio_pcm_open (st : state) (sub : nat) : Z * state :=
  let st := emit [SetRuntimeHwparams sub] st in
  match capture_substream st with
  | Some _ => (- EBUSY, st)
  | None =>
      let st := set_capture_substream (Some sub) st in
      let st := emit [KfifoReset] st in
      let st := set_position 0 st in
      (0, emit [FlushWorkqueue] st)
  end.

Definition matrixio_pcm_close (st : state) (sub : nat) : Z * state :=
  (0, set_capture_substream None st).

Definition matrixio_pcm_hw_params (st : state) (sub : nat) (p : snd_pcm_hw_params)
    : Z * state :=
  (0, emit [Printk] st).

Definition matrixio_pcm_prepare (st : state) (sub : nat) : Z * state :=
  (0, emit [Printk] st).

Definition matrixio_pcm_trigger (st : state) (sub : nat) (cmd : Z) : Z :=
  if (cmd =? SNDRV_PCM_TRIGGER_START) || (cmd =? SNDRV_PCM_TRIGGER_RESUME)
     || (cmd =? SNDRV_PCM_TRIGGER_PAUSE_RELEASE) then 0
  else if (cmd =? SNDRV_PCM_TRIGGER_STOP) || (cmd =? SNDRV_PCM_TRIGGER_SUSPEND)
          || (cmd =? SNDRV_PCM_TRIGGER_PAUSE_PUSH) then 0
  else - EINVAL.

(** [matrixio_pcm_pointer]: [position = position < runtime->buffer_size ?
    position : 0; return position;] *)
Definition matrixio_pcm_pointer (st : state) (rt : snd_pcm_runtime) : Z * state :=
  let st := emit [Printk] st in
  let st := set_position (if position st <? buffer_size rt then position st else 0) st in
  (position st, st).

(** [matrixio_pcm_copy]: [copy_to_user(buf, &matrixio_buf[0][pos], count * 2)];
    [not_copied] is what copy_to_user returns. *)
Definition matrixio_pcm_copy (st : state) (channel : Z) (pos count : Z)
    (not_copied : Z) : Z * state :=
  (not_copied,
   emit [Printk; CopyToUser (load_words pos (Z.to_nat count) (matrixio_buf st)) (count * 2)] st).

Section WordSize.

Variable BITS_PER_LONG : Z.

(** [matrixio_pcm_capture_work].  [words] is what the bus read delivers (256
    words when it goes through); its return value is not looked at. *)
Definition matrixio_pcm_capture_work (st : state) (words : list Z) : state :=
  let st := emit [MutexLock;
                  MatrixioRead MATRIXIO_MICARRAY_BASE MATRIXIO_MICARRAY_BUFFER_SIZE
                    (position st)] st in
  let st := set_matrixio_buf (store_words (position st) words (matrixio_buf st)) st in
  let st := set_position ((position st + 256) mod 2 ^ BITS_PER_LONG) st in
  let st := emit [MutexUnlock] st in
  emit [PeriodElapsed (capture_substream st)] st.

(** Periods one after the other: the work item, then the pointer callback
    that the period notification brings about. *)
Fixpoint capture_periods (st : state) (rt : snd_pcm_runtime) (blocks : list (list Z))
    : state :=
  match blocks with
  | [] => st
  | words :: blocks' =>
      let st := matrixio_pcm_capture_work st words in
      capture_periods (snd (matrixio_pcm_pointer st rt)) rt blocks'
  end.

End WordSize.

End Pcm.

Section Driver.

(** Constants of matrixio-pcm.h and the table of fir_coeff.h, which are not
    part of the sources at hand, and the width of [unsigned long]. *)
Variable MATRIXIO_PERIOD_FRAMES : Z.
Variable MATRIXIO_CONF_BASE : Z.
Variable MATRIXIO_MICARRAY_BASE : Z.
Variable MATRIXIO_FIR_TAP_SIZE : Z.
Variable FIR_Coeff : list fir_entry.
Variable BITS_PER_LONG : Z.

(** Value of an [unsigned long] holding the low bits of [z]. *)
Definition to_ulong (z : Z) : Z := z mod 2 ^ BITS_PER_LONG.

(** ** The bottom half's copy loops *)

(** [for (c = 0; c < runtime->channels; c++) *buf++ = frag[c * PERIOD_FRAMES + i];]
    with [n] iterations left. *)
Fixpoint interleave_frame (frag : list Z) (i c : Z) (n : nat) (buf : Z)
    (area : gmap Z Z) : Z * gmap Z Z :=
  match n with
  | O => (buf, area)
  | S n' =>
      interleave_frame frag i (c + 1) n' (buf + 1)
        (<[buf := frag_at frag (c * MATRIXIO_PERIOD_FRAMES + i)]> area)
  end.

(** [for (i = 0; i < MATRIXIO_PERIOD_FRAMES; i++) ...] with [n] iterations
    left. *)
Fixpoint interleave (frag : list Z) (nchan : Z) (i : Z) (n : nat) (buf : Z)
    (area : gmap Z Z) : Z * gmap Z Z :=
  match n with
  | O => (buf, area)
  | S n' =>
      let '(buf', area') := interleave_frame frag i 0 (Z.to_nat nchan) buf area in
      interleave frag nchan (i + 1) n' buf' area'
  end.

(** ** The interrupt handlers *)

(** Lines 66-84: the bus read, the barriered clear of the transfer bit and
    the error exit.  [None]: [ms->substream] is NULL and is dereferenced.
    Otherwise the substream the handler works on, whether it goes on to the
    locked section, and the state. *)
Definition thread_read (st : kstate) (rd : read_outcome) : option (nat * bool * kstate) :=
  sub ← substream (ms st);
  rt ← pcm st !! sub;
  let st := emit [MatrixioRead MATRIXIO_MICARRAY_BASE (snd_pcm_lib_period_bytes rt)] st in
  let st := with_ms (set_frag_buffer (rd_frag rd)) st in
  let st := emit [SmpMb] st in
  let st := clear_bit 1 st in
  if negb (rd_ret rd =? 0) then
    Some (sub, false, emit [PcmErr (MsgSpiReadFailed (rd_ret rd))] st)
  else Some (sub, true, st).

(** Lines 86-111: the section under [worker_lock].  The boolean tells whether
    a period was committed. *)
Definition thread_locked (st : kstate) (sub : nat) : option (bool * kstate) :=
  rt ← pcm st !! sub;
  let st := emit [SpinLock] st in
  if negb (test_bit 0 st) then Some (false, emit [SpinUnlock] st)
  else
    match dma_area rt with
    | None => Some (false, emit [PcmErr MsgDmaBufferMissing; SpinUnlock] st)
    | Some area =>
        let pos := to_ulong (atomic_read_position st) in
        let buf := frames_to_bytes rt pos / 2 in
        let '(_, area') :=
          interleave (frag_buffer (ms st)) (channels rt) 0
            (Z.to_nat MATRIXIO_PERIOD_FRAMES) buf area in
        let st := with_runtime sub (set_dma (Some area') (dma_bytes rt) rt) st in
        let pos := to_ulong (pos + MATRIXIO_PERIOD_FRAMES) in
        let pos := if buffer_size rt <=? pos then to_ulong (pos - buffer_size rt) else pos in
        let st := atomic_set_position pos st in
        Some (true, emit [SpinUnlock] st)
    end.

(** Lines 113-114: the notification, outside the lock. *)
Definition thread_notify (st : kstate) : option kstate :=
  sub ← substream (ms st);
  Some (emit [PeriodElapsed sub] st).

Definition matrixio_pcm_thread (st : kstate) (rd : read_outcome)
    : option (irqreturn_t * kstate) :=
  match thread_read st rd with
  | None => None
  | Some (sub, false, st) => Some (IRQ_HANDLED, st)
  | Some (sub, true, st) =>
      match thread_locked st sub with
      | None => None
      | Some (false, st) => Some (IRQ_HANDLED, st)
      | Some (true, st) =>
          match thread_notify st with
          | None => None
          | Some st => Some (IRQ_HANDLED, st)
          end
      end
  end.

Definition matrixio_pcm_interrupt (st : kstate) : irqreturn_t * kstate :=
  match substream (ms st) with
  | None => (IRQ_NONE, st)
  | Some _ =>
      if negb (test_bit 0 st) then (IRQ_HANDLED, st)
      else
        let '(was_set, st) := test_and_set_bit 1 st in
        let st := if was_set then emit [PcmWarn MsgPossibleOverflow] st else st in
        (IRQ_WAKE_THREAD, st)
  end.

(** ** The PCM callbacks *)

Definition matrixio_pcm_open (st : kstate) (sub : nat) (irq_ret : Z) : Z * kstate :=
  let st := emit [SetRuntimeHwparams sub; HwConstraintInteger sub;
                  HwConstraintStep sub MATRIXIO_PERIOD_FRAMES;
                  HwConstraintSingle sub MATRIXIO_PERIOD_FRAMES;
                  SetSync sub] st in
  match substream (ms st) with
  | Some _ => (- EBUSY, st)
  | None =>
      let st := with_ms (set_substream (Some sub)) st in
      let st := atomic_set_position 0 st in
      let st := clear_bit 0 st in
      let st := emit [SmpMb; RequestThreadedIrq (irq (ms st))] st in
      if irq_ret <? 0 then (irq_ret, with_ms (set_substream None) st)
      else (0, st)
  end.

Definition matrixio_pcm_close (st : kstate) (sub : nat) : Z * kstate :=
  let st := clear_bit 0 st in
  let st := emit [FreeIrq (irq (ms st))] st in
  (0, with_ms (set_substream None) st).

Definition matrixio_pcm_trigger (st : kstate) (sub : nat) (cmd : Z) : Z * kstate :=
  if cmd =? SNDRV_PCM_TRIGGER_START then
    (0, emit [SmpMb] (set_bit 0 st))
  else if cmd =? SNDRV_PCM_TRIGGER_STOP then
    let st := emit [PcmDbg MsgStopping; SpinLock] st in
    let st := clear_bit 0 st in
    (0, emit [SpinUnlock; PcmDbg MsgStopped] st)
  else (- EINVAL, st).

Definition matrixio_pcm_hw_params (st : kstate) (sub : nat)
    (p : snd_pcm_hw_params) (vmalloc_ok : bool) : option (Z * kstate) :=
  if negb (snd_pcm_format_width (params_format p) =? 16) then Some (- EINVAL, st)
  else
    let rate := to_int (params_rate p) in
    match lookup_rate rate matrixio_params with
    | None => Some (- EINVAL, st)
    | Some e =>
        let st := emit [RegmapWrite (MATRIXIO_CONF_BASE + 6) (decimation e);
                        RegmapWrite (MATRIXIO_CONF_BASE + 7) (gain e)] st in
        match lookup_fir rate FIR_Coeff with
        | None => Some (- EINVAL, st)
        | Some f =>
            let st := emit [MatrixioWrite MATRIXIO_MICARRAY_BASE
                              MATRIXIO_FIR_TAP_SIZE (coeff_ f)] st in
            rt ← pcm st !! sub;
            let '(ret, rt') :=
              snd_pcm_lib_alloc_vmalloc_buffer vmalloc_ok (params_buffer_bytes p) rt in
            Some (ret, with_runtime sub rt' st)
        end
    end.

Definition matrixio_pcm_hw_free (st : kstate) (sub : nat) : option (Z * kstate) :=
  let st := if test_bit 0 st then emit [SndBug] st else st in
  rt ← pcm st !! sub;
  let '(ret, rt') := snd_pcm_lib_free_vmalloc_buffer rt in
  Some (ret, with_runtime sub rt' st).

Definition matrixio_pcm_prepare (st : kstate) (sub : nat) : option (Z * kstate) :=
  rt ← pcm st !! sub;
  if negb (period_size rt =? MATRIXIO_PERIOD_FRAMES) then
    Some (- EINVAL,
          emit [PcmErr (MsgNeedFrames MATRIXIO_PERIOD_FRAMES (period_size rt))] st)
  else Some (0, atomic_set_position 0 st).

Definition matrixio_pcm_pointer (st : kstate) : Z := atomic_read_position st.

(** ** The driver in its environment

    The PCM core serialises the callbacks of a substream; the interrupt core
    runs the top half and one handler thread.  The thread sleeps in the bus
    read and contends for [worker_lock] afterwards, so a callback can run
    between its two parts: the thread is two steps, [EvThreadRead] and
    [EvThreadLocked], and [irq_thread] remembers the substream a thread
    waiting for the lock works on.  A section under [worker_lock] is one
    step. *)

Inductive thread_pc := ThreadIdle | ThreadAtLock (sub : nat).

Record sys := {
  kern : kstate;
  irq_thread : thread_pc
}.

Inductive event :=
| EvOpen (sub : nat) (irq_ret : Z)
| EvClose (sub : nat)
| EvHwParams (sub : nat) (p : snd_pcm_hw_params) (vmalloc_ok : bool)
| EvHwFree (sub : nat)
| EvPrepare (sub : nat)
| EvTrigger (sub : nat) (cmd : Z)
| EvPointer (sub : nat)
| EvInterrupt
| EvThreadRead (rd : read_outcome)
| EvThreadLocked.

(** The runtime of a substream that was just opened (zeroed by the core). *)
Definition runtime0 : snd_pcm_runtime :=
  {| dma_area := None; dma_bytes := 0; channels := 0; period_size := 0;
     buffer_size := 0 |}.

(** The PCM core stores the chosen geometry after the driver's hw_params
    succeeded ([snd_pcm_hw_params], sound/core/pcm_native.c). *)
Definition set_geometry (p : snd_pcm_hw_params) (r : snd_pcm_runtime) :=
  {| dma_area := dma_area r; dma_bytes := dma_bytes r;
     channels := params_channels p; period_size := params_period_size p;
     buffer_size := params_buffer_size p |}.

Definition drop_runtime (sub : nat) (st : kstate) : kstate :=
  {| ms := ms st; pcm := delete sub (pcm st); klog := klog st |}.

Definition callback (s : sys) (r : option (Z * kstate)) : option sys :=
  match r with
  | None => None
  | Some (_, st) => Some {| kern := st; irq_thread := irq_thread s |}
  end.

(** One step.  [None]: the step cannot happen there (a substream is opened
    twice or used while it does not exist, a second handler thread, free_irq
    before the thread has finished) or it dereferences NULL. *)
Definition step (s : sys) (e : event) : option sys :=
  let st := kern s in
  match e with
  | EvOpen sub irq_ret =>
      match pcm st !! sub with
      | Some _ => None
      | None =>
          let '(ret, st) := matrixio_pcm_open (with_runtime sub runtime0 st) sub irq_ret in
          Some {| kern := if ret <? 0 then drop_runtime sub st else st;
                  irq_thread := irq_thread s |}
      end
  | EvClose sub =>
      match pcm st !! sub, irq_thread s with
      | Some _, ThreadIdle =>
          let '(_, st) := matrixio_pcm_close st sub in
          Some {| kern := drop_runtime sub st; irq_thread := ThreadIdle |}
      | _, _ => None
      end
  | EvHwParams sub p vmalloc_ok =>
      match matrixio_pcm_hw_params st sub p vmalloc_ok with
      | None => None
      | Some (ret, st) =>
          if ret <? 0 then Some {| kern := st; irq_thread := irq_thread s |}
          else
            match pcm st !! sub with
            | None => None
            | Some rt =>
                Some {| kern := with_runtime sub (set_geometry p rt) st;
                        irq_thread := irq_thread s |}
            end
      end
  | EvHwFree sub => callback s (matrixio_pcm_hw_free st sub)
  | EvPrepare sub => callback s (matrixio_pcm_prepare st sub)
  | EvTrigger sub cmd =>
      match pcm st !! sub with
      | None => None
      | Some _ => callback s (Some (matrixio_pcm_trigger st sub cmd))
      end
  | EvPointer sub =>
      match pcm st !! sub with
      | None => None
      | Some _ => Some s
      end
  | EvInterrupt =>
      Some {| kern := snd (matrixio_pcm_interrupt st); irq_thread := irq_thread s |}
  | EvThreadRead rd =>
      match irq_thread s, thread_read st rd with
      | ThreadIdle, Some (sub, go_on, st) =>
          Some {| kern := st;
                  irq_thread := if go_on then ThreadAtLock sub else ThreadIdle |}
      | _, _ => None
      end
  | EvThreadLocked =>
      match irq_thread s with
      | ThreadIdle => None
      | ThreadAtLock sub =>
          match thread_locked st sub with
          | None => None
          | Some (false, st) => Some {| kern := st; irq_thread := ThreadIdle |}
          | Some (true, st) =>
              match thread_notify st with
              | None => None
              | Some st => Some {| kern := st; irq_thread := ThreadIdle |}
              end
          end
      end
  end.

Fixpoint run (s : sys) (es : list event) : option sys :=
  match es with
  | [] => Some s
  | e :: es' =>
      match step s e with
      | None => None
      | Some s' => run s' es'
      end
  end.

(** The state probe leaves behind: [ms] zeroed by [devm_kzalloc], the
    fragment buffer allocated, the interrupt line parsed, no substream. *)
Definition probe_state (line : Z) (frag : list Z) : sys :=
  {| kern := {| ms := {| irq := line; substream := None; frag_buffer := frag;
                         position := 0; flags := 0 |};
                pcm := ∅; klog := [] |};
     irq_thread := ThreadIdle |}.

(** [n] periods in a row, each bus read succeeding or not as [rds] says. *)
Fixpoint run_periods (st : kstate) (rds : list read_outcome) : option kstate :=
  match rds with
  | [] => Some st
  | rd :: rds' =>
      match matrixio_pcm_thread st rd with
      | None => None
      | Some (_, st') => run_periods st' rds'
      end
  end.

(** One interrupt served to the end: the top half, and the bottom half when
    the top half asks for the thread. *)
Definition irq_cycle (st : kstate) (rd : read_outcome) : option kstate :=
  let '(r, st) := matrixio_pcm_interrupt st in
  match r with
  | IRQ_WAKE_THREAD =>
      match matrixio_pcm_thread st rd with
      | None => None
      | Some (_, st) => Some st
      end
  | _ => Some st
  end.

Fixpoint run_cycles (st : kstate) (rds : list read_outcome) : option kstate :=
  match rds with
  | [] => Some st
  | rd :: rds' =>
      match irq_cycle st rd with
      | None => None
      | Some st' => run_cycles st' rds'
      end
  end.

(** The rate limits of [matrixio_pcm_capture_hw]:
    [.rate_min = matrixio_params[0].rate] and
    [.rate_max = matrixio_params[ARRAY_SIZE(matrixio_params)-1].rate]. *)
Definition capture_hw_rate_min : Z := rate (nth 0 matrixio_params (Build_rate_params 0 0 0)).

Definition capture_hw_rate_max : Z :=
  rate (nth (length matrixio_params - 1) matrixio_params (Build_rate_params 0 0 0)).

(** ** Statements of the specification, for comparison *)

(** The rate table as the specification prints it (section 6): rate,
    decimation, gain_bits. *)
Definition rate_table_spec : list (Z * Z * Z) :=
  [ (8000, 374, 1); (12000, 249, 2); (16000, 186, 3); (22050, 135, 5);
    (24000, 124, 5); (32000, 92, 6); (44100, 67, 7); (48000, 61, 7);
    (96000, 30, 10) ].

Definition supported_rates : list Z := map rate matrixio_params.

(** The allocation of the ring goes through. *)
Definition alloc_succeeds (vmalloc_ok : bool) (size : Z) (r : snd_pcm_runtime) : Prop :=
  0 <= fst (snd_pcm_lib_alloc_vmalloc_buffer vmalloc_ok size r).

(** ** A sample board and sample states, for concrete runs *)

(** Modelled from the spec: the FIR_Coeff array of fir_coeff.h, which is not
    among the sources.  Section 3 of the specification gives one coefficient
    vector per supported rate; the loop of hw_params ends at an entry of rate
    0.  The words of the vectors are an opaque asset: [taps r] stands for the
    vector of rate [r]. *)
Definition fir_table (taps : Z -> list Z) : list fir_entry :=
  map (fun e => {| rate_ := rate e; coeff_ := taps (rate e) |}) matrixio_params
  ++ [ {| rate_ := 0; coeff_ := [] |} ].

Definition sample_fir : list fir_entry := fir_table (fun r => [r / 1000; 1]).

Definition sample_params (f : snd_pcm_format_t) (r period : Z) : snd_pcm_hw_params :=
  {| params_format := f; params_rate := r; params_channels := 2;
     params_period_size := period; params_buffer_size := 16;
     params_buffer_bytes := 64 |}.

(** A substream just opened and bound, nothing configured. *)
Definition sample_open : kstate :=
  {| ms := {| irq := 17; substream := Some 0%nat; frag_buffer := repeat 0 32;
              position := 0; flags := 0 |};
     pcm := {[ 0%nat := runtime0 ]};
     klog := [] |}.

(** Two channels, periods of 4 frames, a ring of 4 periods. *)
Definition sample_runtime : snd_pcm_runtime :=
  {| dma_area := Some ∅; dma_bytes := 64; channels := 2; period_size := 4;
     buffer_size := 16 |}.

(** The same substream configured and started. *)
Definition sample_running : kstate :=
  {| ms := {| irq := 17; substream := Some 0%nat; frag_buffer := repeat 0 32;
              position := 0; flags := 1 |};
     pcm := {[ 0%nat := sample_runtime ]};
     klog := [] |}.

(** A fragment with word [c * 4 + i] holding [c * 1000 + i]. *)
Definition sample_read : read_outcome :=
  {| rd_ret := 0; rd_frag := [0; 1; 2; 3; 1000; 1001; 1002; 1003] |}.

Definition sample_failed_read : read_outcome :=
  {| rd_ret := -5; rd_frag := repeat 0 32 |}.

(** A handler thread that has done its bus read and waits for the lock. *)
Definition sample_racing : sys :=
  {| kern := sample_running; irq_thread := ThreadAtLock 0 |}.

(** Open, configure, prepare, start, one interrupt and its bottom half. *)
Definition sample_session : list event :=
  [ EvOpen 0 0;
    EvHwParams 0 (sample_params SNDRV_PCM_FORMAT_S16_LE 48000 4) true;
    EvPrepare 0;
    EvTrigger 0 SNDRV_PCM_TRIGGER_START;
    EvInterrupt;
    EvThreadRead sample_read;
    EvThreadLocked ].

(** The state probe leaves behind. *)
Definition sample_closed : kstate := kern (probe_state 17 (repeat 0 32)).

(** The sample session up to the point where the handler thread has done its
    bus read and waits for the lock. *)
Definition sample_session_at_lock : list event :=
  [ EvOpen 0 0;
    EvHwParams 0 (sample_params SNDRV_PCM_FORMAT_S16_LE 48000 4) true;
    EvPrepare 0;
    EvTrigger 0 SNDRV_PCM_TRIGGER_START;
    EvInterrupt;
    EvThreadRead sample_read ].

(** A FIR table whose entry for 48000 Hz lies behind the sentinel. *)
Definition sample_fir_cut : list fir_entry :=
  [ {| rate_ := 8000; coeff_ := [8; 1] |};
    {| rate_ := 0; coeff_ := [] |};
    {| rate_ := 48000; coeff_ := [48; 1] |} ].

(** The work-queue driver with a substream open and the position at the end
    of a buffer of 1024 frames. *)
Definition sample_pcm : Pcm.state :=
  {| Pcm.position := 768; Pcm.capture_substream := Some 0%nat;
     Pcm.matrixio_buf := ∅; Pcm.initialized := false; Pcm.log := [] |}.

Definition sample_pcm_runtime : snd_pcm_runtime :=
  {| dma_area := None; dma_bytes := 0; channels := 1; period_size := 256;
     buffer_size := 1024 |}.

(** * Properties *)

#[local] Arguments Z.testbit : simpl never.
#[local] Arguments Z.setbit : simpl never.
#[local] Arguments Z.clearbit : simpl never.
#[local] Arguments Z.pow : simpl never.
#[local] Arguments Z.mul : simpl never.
#[local] Arguments Z.add : simpl never.
#[local] Arguments Z.div : simpl never.
#[local] Arguments Z.modulo : simpl never.

(** ** Integer conversions *)

Lemma to_uint_to_int x : 0 <= x < 2 ^ 32 -> to_uint (to_int x) = x.
Proof.
  intros Hx. unfold to_uint, to_int.
  rewrite Zminus_mod_idemp_l.
  replace (x + 2 ^ 31 - 2 ^ 31) with x by lia.
  apply Z.mod_small. exact Hx.
Qed.

Lemma to_int_small x : 0 <= x < 2 ^ 31 -> to_int x = x.
Proof.
  intros Hx. unfold to_int. rewrite Z.mod_small; lia.
Qed.

(** ** The table loops *)

Lemma lookup_rate_Some r tbl e :
  lookup_rate r tbl = Some e -> In e tbl /\ rate e = to_uint r.
Proof.
  induction tbl as [|a tbl IH]; simpl; [discriminate|].
  destruct (to_uint r =? rate a) eqn:E.
  - intros [= <-]. apply Z.eqb_eq in E. auto.
  - intros H. destruct (IH H). auto.
Qed.

Lemma lookup_rate_None r tbl :
  lookup_rate r tbl = None -> ~ In (to_uint r) (map rate tbl).
Proof.
  induction tbl as [|a tbl IH]; simpl; [tauto|].
  destruct (to_uint r =? rate a) eqn:E; [discriminate|].
  apply Z.eqb_neq in E. intros H [Ha|Hin]; [lia|]. exact (IH H Hin).
Qed.

Lemma lookup_fir_Some r tbl f :
  lookup_fir r tbl = Some f -> In f tbl /\ rate_ f = r /\ r <> 0.
Proof.
  induction tbl as [|a tbl IH]; simpl; [discriminate|].
  destruct (rate_ a =? 0) eqn:E0; [discriminate|].
  destruct (rate_ a =? r) eqn:E.
  - intros [= <-]. apply Z.eqb_eq in E. apply Z.eqb_neq in E0. split; [auto|lia].
  - intros H. destruct (IH H) as (? & ? & ?). auto.
Qed.

Lemma alloc_ret_cases ok size r :
  let ret := fst (snd_pcm_lib_alloc_vmalloc_buffer ok size r) in
  ret = 0 \/ ret = 1 \/ ret = - ENOMEM.
Proof.
  unfold snd_pcm_lib_alloc_vmalloc_buffer.
  destruct (dma_area r), ok; simpl; try destruct (size <=? dma_bytes r); simpl; auto.
Qed.

(** ** hw_params *)

(** What hw_params does once the format and both tables accept the
    request. *)
Lemma hw_params_accept st sub p ok rt e f :
  snd_pcm_format_width (params_format p) = 16 ->
  lookup_rate (to_int (params_rate p)) matrixio_params = Some e ->
  lookup_fir (to_int (params_rate p)) FIR_Coeff = Some f ->
  pcm st !! sub = Some rt ->
  matrixio_pcm_hw_params st sub p ok =
    Some (fst (snd_pcm_lib_alloc_vmalloc_buffer ok (params_buffer_bytes p) rt),
          with_runtime sub
            (snd (snd_pcm_lib_alloc_vmalloc_buffer ok (params_buffer_bytes p) rt))
            (emit [MatrixioWrite MATRIXIO_MICARRAY_BASE MATRIXIO_FIR_TAP_SIZE (coeff_ f)]
               (emit [RegmapWrite (MATRIXIO_CONF_BASE + 6) (decimation e);
                      RegmapWrite (MATRIXIO_CONF_BASE + 7) (gain e)] st))).
Proof.
  intros Hw He Hf Hrt. unfold matrixio_pcm_hw_params.
  rewrite Hw, He, Hf. simpl. rewrite Hrt. simpl.
  destruct (snd_pcm_lib_alloc_vmalloc_buffer ok (params_buffer_bytes p) rt).
  reflexivity.
Qed.

Lemma supported_rate_int r : In r supported_rates -> to_int r = r.
Proof.
  intros H. apply to_int_small. unfold supported_rates in H. simpl in H.
  intuition lia.
Qed.

Lemma lookup_rate_supported r :
  In r supported_rates -> exists e, lookup_rate r matrixio_params = Some e /\ rate e = r.
Proof.
  unfold supported_rates. simpl.
  intros [<-|[<-|[<-|[<-|[<-|[<-|[<-|[<-|[<-|[]]]]]]]]]];
    (eexists; split; [vm_compute; reflexivity|reflexivity]).
Qed.

Lemma hw_params_reject_width st sub p ok :
  snd_pcm_format_width (params_format p) <> 16 ->
  matrixio_pcm_hw_params st sub p ok = Some (- EINVAL, st).
Proof.
  intros Hw. unfold matrixio_pcm_hw_params.
  destruct (snd_pcm_format_width (params_format p) =? 16) eqn:E; [|reflexivity].
  apply Z.eqb_eq in E. contradiction.
Qed.

Lemma hw_params_reject_rate st sub p ok :
  0 <= params_rate p < 2 ^ 32 ->
  ~ In (params_rate p) supported_rates ->
  matrixio_pcm_hw_params st sub p ok = Some (- EINVAL, st).
Proof.
  intros Hr Hn. unfold matrixio_pcm_hw_params.
  destruct (negb _); [reflexivity|].
  destruct (lookup_rate _ _) as [e|] eqn:E; [|reflexivity].
  apply lookup_rate_Some in E as [Hin He]. rewrite to_uint_to_int in He by exact Hr.
  exfalso. apply Hn. rewrite <- He. unfold supported_rates. apply in_map. exact Hin.
Qed.

Lemma hw_params_reject_fir st sub p ok :
  snd_pcm_format_width (params_format p) = 16 ->
  In (params_rate p) supported_rates ->
  lookup_fir (params_rate p) FIR_Coeff = None ->
  exists st', matrixio_pcm_hw_params st sub p ok = Some (- EINVAL, st').
Proof.
  intros Hw Hin Hf. unfold matrixio_pcm_hw_params.
  rewrite Hw, Z.eqb_refl. cbn [negb]. rewrite (supported_rate_int _ Hin).
  destruct (lookup_rate_supported _ Hin) as (e & -> & _).
  rewrite Hf. eauto.
Qed.

(** C1, as the code has it.  hw_params succeeds exactly when the format is
    16 bits wide, the rate is in the rate table and in the FIR table, and the
    ring is allocated; a bad width or rate gives -EINVAL, a failed allocation
    -ENOMEM.  hw_params never looks at the period size: prepare does, and
    returns -EINVAL exactly when it differs from MATRIXIO_PERIOD_FRAMES. *)
Theorem hw_params_success_iff st sub p ok rt :
  pcm st !! sub = Some rt ->
  0 <= params_rate p < 2 ^ 32 ->
  let accepted :=
    snd_pcm_format_width (params_format p) = 16 /\
    In (params_rate p) supported_rates /\
    is_Some (lookup_fir (params_rate p) FIR_Coeff) in
  (exists ret st',
     matrixio_pcm_hw_params st sub p ok = Some (ret, st') /\
     (0 <= ret <-> accepted /\ alloc_succeeds ok (params_buffer_bytes p) rt) /\
     (~ accepted -> ret = - EINVAL) /\
     (accepted -> ~ alloc_succeeds ok (params_buffer_bytes p) rt -> ret = - ENOMEM)) /\
  (exists ret st',
     matrixio_pcm_prepare st sub = Some (ret, st') /\
     (ret = 0 <-> period_size rt = MATRIXIO_PERIOD_FRAMES) /\
     (ret <> 0 -> ret = - EINVAL)).
Proof.
  intros Hrt Hr. cbv zeta. split.
  - destruct (Z.eq_dec (snd_pcm_format_width (params_format p)) 16) as [Hw|Hw].
    2:{ exists (- EINVAL), st. rewrite hw_params_reject_width by exact Hw.
        unfold EINVAL. intuition lia. }
    destruct (In_dec Z.eq_dec (params_rate p) supported_rates) as [Hin|Hin].
    2:{ exists (- EINVAL), st. rewrite hw_params_reject_rate by assumption.
        unfold EINVAL. intuition lia. }
    destruct (lookup_fir (params_rate p) FIR_Coeff) as [f|] eqn:Hf.
    2:{ destruct (hw_params_reject_fir st sub p ok Hw Hin Hf) as [st' Hst'].
        exists (- EINVAL), st'. rewrite Hst'.
        assert (Hn : ~ is_Some (@None fir_entry)) by (intros [? ?]; discriminate).
        unfold EINVAL. intuition lia. }
    destruct (lookup_rate_supported _ Hin) as (e & He & _).
    pose proof (supported_rate_int _ Hin) as Hint.
    eexists _, _. split.
    { apply hw_params_accept with (e := e) (f := f); rewrite ?Hint; eassumption. }
    assert (Hs : is_Some (Some f)) by eauto.
    unfold alloc_succeeds.
    pose proof (alloc_ret_cases ok (params_buffer_bytes p) rt) as Hc. simpl in Hc.
    unfold ENOMEM in *. intuition lia.
  - unfold matrixio_pcm_prepare. rewrite Hrt. simpl.
    destruct (period_size rt =? MATRIXIO_PERIOD_FRAMES) eqn:E; simpl.
    + apply Z.eqb_eq in E. eexists _, _. split; [reflexivity|]. intuition lia.
    + apply Z.eqb_neq in E. eexists _, _. split; [reflexivity|].
      unfold EINVAL. intuition lia.
Qed.

(** C6.  For each row (r, decimation, gain_bits) of the specification's rate
    table, a hw_params call for rate r that succeeds adds to the trace exactly
    the write of decimation to CONF_BASE + 0x06, the write of gain_bits to
    CONF_BASE + 0x07 and the upload of the coefficients of the first FIR_Coeff
    entry for r. *)
Theorem hw_params_programs_rate st sub p ok ret st' r dec gb :
  In (r, dec, gb) rate_table_spec ->
  params_rate p = r ->
  matrixio_pcm_hw_params st sub p ok = Some (ret, st') ->
  0 <= ret ->
  exists f,
    lookup_fir r FIR_Coeff = Some f /\ In f FIR_Coeff /\ rate_ f = r /\
    klog st' = klog st ++
      [RegmapWrite (MATRIXIO_CONF_BASE + 6) dec;
       RegmapWrite (MATRIXIO_CONF_BASE + 7) gb;
       MatrixioWrite MATRIXIO_MICARRAY_BASE MATRIXIO_FIR_TAP_SIZE (coeff_ f)].
Proof.
  intros Hin Hr Hp Hret. unfold matrixio_pcm_hw_params in Hp.
  destruct (negb _); [injection Hp as <- _; unfold EINVAL in Hret; lia|].
  rewrite Hr in Hp.
  assert (Hrow : to_int r = r /\
                 lookup_rate r matrixio_params =
                   Some {| rate := r; decimation := dec; gain := gb |}).
  { unfold rate_table_spec in Hin. simpl in Hin.
    repeat (destruct Hin as [[= <- <- <-]|Hin]; [split; vm_compute; reflexivity|]).
    destruct Hin. }
  destruct Hrow as [Hint Hrow]. rewrite Hint, Hrow in Hp. simpl in Hp.
  destruct (lookup_fir r FIR_Coeff) as [f|] eqn:Hf;
    [|injection Hp as <- _; unfold EINVAL in Hret; lia].
  destruct (pcm st !! sub) as [rt|]; simpl in Hp; [|discriminate].
  destruct (snd_pcm_lib_alloc_vmalloc_buffer _ _ _) as [ret' rt'].
  injection Hp as <- <-.
  destruct (lookup_fir_Some _ _ _ Hf) as (Hf1 & Hf2 & _).
  exists f. repeat split; try assumption.
  simpl. rewrite <- app_assoc. reflexivity.
Qed.

(** C9.  For a rate outside the rate table (11025 for one), whatever the
    format, hw_params returns -EINVAL and leaves the whole state as it was:
    the trace gains no register write and no bus write. *)
Theorem hw_params_unsupported_rate st sub p ok :
  0 <= params_rate p < 2 ^ 32 ->
  ~ In (params_rate p) supported_rates ->
  matrixio_pcm_hw_params st sub p ok = Some (- EINVAL, st).
Proof.
  intros Hr Hn. apply hw_params_reject_rate; assumption.
Qed.

(** ** The flag word *)

Lemma test_bit_set_bit nr m st :
  0 <= nr -> test_bit m (set_bit nr st) = if decide (nr = m) then true else test_bit m st.
Proof.
  intros Hnr. unfold test_bit, set_bit. simpl. case_decide as E.
  - subst. apply Z.setbit_eq. exact Hnr.
  - apply Z.setbit_neq; assumption.
Qed.

Lemma test_bit_clear_bit nr m st :
  test_bit m (clear_bit nr st) = if decide (nr = m) then false else test_bit m st.
Proof.
  unfold test_bit, clear_bit. simpl. case_decide as E.
  - subst. apply Z.clearbit_eq.
  - apply Z.clearbit_neq. exact E.
Qed.

(** ** The top half *)

(** C5.  The top half returns IRQ_NONE when no substream is bound; with a
    substream and the running bit clear it returns IRQ_HANDLED and changes
    nothing; with the running bit set it test-and-sets the transfer bit and
    returns IRQ_WAKE_THREAD, the running bit stays set, and the trace gains
    the overflow warning once if the transfer bit was set already and not at
    all otherwise. *)
Theorem interrupt_top_half st :
  (substream (ms st) = None -> matrixio_pcm_interrupt st = (IRQ_NONE, st)) /\
  (substream (ms st) <> None -> test_bit 0 st = false ->
     matrixio_pcm_interrupt st = (IRQ_HANDLED, st)) /\
  (substream (ms st) <> None -> test_bit 0 st = true ->
     exists st',
       matrixio_pcm_interrupt st = (IRQ_WAKE_THREAD, st') /\
       flags (ms st') = Z.setbit (flags (ms st)) 1 /\
       test_bit 1 st' = true /\ test_bit 0 st' = true /\
       substream (ms st') = substream (ms st) /\
       position (ms st') = position (ms st) /\
       pcm st' = pcm st /\
       klog st' = klog st ++ TestAndSetBit 1 ::
                    (if test_bit 1 st then [PcmWarn MsgPossibleOverflow] else [])).
Proof.
  unfold matrixio_pcm_interrupt. repeat split.
  - intros ->. reflexivity.
  - intros Hs Hr. destruct (substream (ms st)); [|contradiction]. rewrite Hr. reflexivity.
  - intros Hs Hr. destruct (substream (ms st)) eqn:Es; [|contradiction]. rewrite Hr. simpl.
    unfold test_bit in *.
    destruct (Z.testbit (flags (ms st)) 1) eqn:E1; eexists; (split; [reflexivity|]);
      simpl; rewrite ?Z.setbit_eq, ?Z.setbit_neq by lia;
      rewrite <- ?app_assoc; auto 10.
Qed.

(** ** open *)

(** C8.  With a substream bound, open returns -EBUSY; the driver state (the
    bound substream, the position, the flags, the fragment buffer) and the
    runtimes are what they were. *)
Theorem open_busy st sub irq_ret :
  substream (ms st) <> None ->
  exists st',
    matrixio_pcm_open st sub irq_ret = (- EBUSY, st') /\
    ms st' = ms st /\ pcm st' = pcm st.
Proof.
  intros Hs. unfold matrixio_pcm_open. simpl.
  destruct (substream (ms st)); [|contradiction].
  eexists. repeat split.
Qed.

(** ** The bottom half: a failed bus read *)

(** C10.  When the bus read fails, the bottom half returns IRQ_HANDLED; the
    trace shows the read, the barrier, the clear of the transfer bit and the
    error message, in that order, and no period notification; the transfer
    bit is clear, the running bit, the ring and the position are as before;
    and a top half that comes next while running wakes the thread without an
    overflow warning. *)
Theorem thread_bus_error st rd sub rt :
  substream (ms st) = Some sub ->
  pcm st !! sub = Some rt ->
  rd_ret rd <> 0 ->
  exists st',
    matrixio_pcm_thread st rd = Some (IRQ_HANDLED, st') /\
    klog st' = klog st ++
      [MatrixioRead MATRIXIO_MICARRAY_BASE (snd_pcm_lib_period_bytes rt);
       SmpMb; ClearBit 1; PcmErr (MsgSpiReadFailed (rd_ret rd))] /\
    test_bit 1 st' = false /\
    test_bit 0 st' = test_bit 0 st /\
    pcm st' = pcm st /\
    position (ms st') = position (ms st) /\
    substream (ms st') = substream (ms st) /\
    (test_bit 0 st = true ->
     exists st'', matrixio_pcm_interrupt st' = (IRQ_WAKE_THREAD, st'') /\
                  klog st'' = klog st' ++ [TestAndSetBit 1]).
Proof.
  intros Hs Hrt Hret.
  unfold matrixio_pcm_thread, thread_read. rewrite Hs. simpl. rewrite Hrt. simpl.
  destruct (rd_ret rd =? 0) eqn:E; [apply Z.eqb_eq in E; contradiction|]. simpl.
  eexists. split; [reflexivity|]. unfold test_bit. simpl.
  rewrite Z.clearbit_eq, Z.clearbit_neq by lia.
  repeat split; try (rewrite <- ?app_assoc; reflexivity); try assumption.
  intros Hrun. unfold matrixio_pcm_interrupt, test_bit. simpl.
  rewrite Z.clearbit_eq, Z.clearbit_neq, Hrun, Hs by lia. simpl.
  eexists. split; reflexivity.
Qed.

(** ** The copy loops *)

Hypothesis BITS_PER_LONG_ge : 32 <= BITS_PER_LONG.

Lemma to_ulong_small z : 0 <= z < 2 ^ 32 -> to_ulong z = z.
Proof.
  intros Hz. unfold to_ulong. apply Z.mod_small.
  assert (2 ^ 32 <= 2 ^ BITS_PER_LONG) by (apply Z.pow_le_mono_r; lia).
  lia.
Qed.

Lemma frames_to_words rt n : frames_to_bytes rt n / 2 = n * channels rt.
Proof.
  unfold frames_to_bytes, frame_bits.
  replace (n * (16 * channels rt)) with (n * channels rt * 2 * 8) by ring.
  rewrite !Z.div_mul by lia. reflexivity.
Qed.

Lemma interleave_frame_buf frag i n : forall c buf area,
  fst (interleave_frame frag i c n buf area) = buf + Z.of_nat n.
Proof.
  induction n as [|n IH]; intros c buf area; simpl.
  - lia.
  - rewrite IH. lia.
Qed.

Lemma interleave_frame_other frag i n : forall c buf (area : gmap Z Z) a,
  a < buf \/ buf + Z.of_nat n <= a ->
  snd (interleave_frame frag i c n buf area) !! a = area !! a.
Proof.
  induction n as [|n IH]; intros c buf area a Ha; simpl; [reflexivity|].
  rewrite IH by lia. apply lookup_insert_ne. lia.
Qed.

Lemma interleave_frame_written frag i n : forall c buf (area : gmap Z Z) k,
  0 <= k < Z.of_nat n ->
  snd (interleave_frame frag i c n buf area) !! (buf + k)
  = Some (frag_at frag ((c + k) * MATRIXIO_PERIOD_FRAMES + i)).
Proof.
  induction n as [|n IH]; intros c buf area k Hk; simpl; [lia|].
  destruct (Z.eq_dec k 0) as [->|Hne].
  - rewrite interleave_frame_other by lia.
    rewrite !Z.add_0_r. apply lookup_insert_eq.
  - replace (buf + k) with (buf + 1 + (k - 1)) by lia.
    rewrite IH by lia. do 2 f_equal. lia.
Qed.

Lemma interleave_buf frag nchan n : forall i buf area,
  fst (interleave frag nchan i n buf area)
  = buf + Z.of_nat n * Z.of_nat (Z.to_nat nchan).
Proof.
  induction n as [|n IH]; intros i buf area; simpl; [lia|].
  destruct (interleave_frame _ _ _ _ _ _) as [buf' area'] eqn:E.
  rewrite IH. pose proof (interleave_frame_buf frag i (Z.to_nat nchan) 0 buf area) as Hb.
  rewrite E in Hb. simpl in Hb. lia.
Qed.

Lemma interleave_other frag nchan n : forall i buf (area : gmap Z Z) a,
  a < buf \/ buf + Z.of_nat n * Z.of_nat (Z.to_nat nchan) <= a ->
  snd (interleave frag nchan i n buf area) !! a = area !! a.
Proof.
  induction n as [|n IH]; intros i buf area a Ha; simpl; [reflexivity|].
  destruct (interleave_frame _ _ _ _ _ _) as [buf' area'] eqn:E.
  pose proof (interleave_frame_buf frag i (Z.to_nat nchan) 0 buf area) as Hb.
  pose proof (interleave_frame_other frag i (Z.to_nat nchan) 0 buf area a) as Ho.
  rewrite E in Hb, Ho. simpl in Hb, Ho.
  rewrite IH by lia. apply Ho. lia.
Qed.

Lemma interleave_written frag nchan n : forall i buf (area : gmap Z Z) j c,
  0 <= j < Z.of_nat n -> 0 <= c < nchan ->
  snd (interleave frag nchan i n buf area) !! (buf + j * nchan + c)
  = Some (frag_at frag (c * MATRIXIO_PERIOD_FRAMES + (i + j))).
Proof.
  induction n as [|n IH]; intros i buf area j c Hj Hc; simpl; [lia|].
  destruct (interleave_frame _ _ _ _ _ _) as [buf' area'] eqn:E.
  pose proof (interleave_frame_buf frag i (Z.to_nat nchan) 0 buf area) as Hb.
  rewrite E in Hb. simpl in Hb.
  destruct (Z.eq_dec j 0) as [->|Hne].
  - rewrite interleave_other by lia.
    pose proof (interleave_frame_written frag i (Z.to_nat nchan) 0 buf area c) as Hw.
    rewrite E in Hw. simpl in Hw.
    replace (buf + 0 * nchan + c) with (buf + c) by lia.
    rewrite Hw by lia. do 2 f_equal. lia.
  - replace (buf + j * nchan + c) with (buf' + (j - 1) * nchan + c) by lia.
    rewrite IH by lia. do 2 f_equal. lia.
Qed.

(** ** The bottom half: a committed period *)

(** The position arithmetic of lines 106-109, on the [unsigned long] value
    [pos] read from [ms->position]. *)
Definition advance (pos bsize : Z) : Z :=
  let pos := to_ulong (pos + MATRIXIO_PERIOD_FRAMES) in
  to_int (if bsize <=? pos then to_ulong (pos - bsize) else pos).

(** The state the bottom half leaves after the bus read and the clear of
    the transfer bit. *)
Definition after_read (st : kstate) (rt : snd_pcm_runtime) (rd : read_outcome) : kstate :=
  clear_bit 1
    (emit [SmpMb]
       (with_ms (set_frag_buffer (rd_frag rd))
          (emit [MatrixioRead MATRIXIO_MICARRAY_BASE (snd_pcm_lib_period_bytes rt)] st))).

Lemma thread_read_eq st rd sub rt :
  substream (ms st) = Some sub ->
  pcm st !! sub = Some rt ->
  thread_read st rd =
    Some (sub, rd_ret rd =? 0,
          if rd_ret rd =? 0 then after_read st rt rd
          else emit [PcmErr (MsgSpiReadFailed (rd_ret rd))] (after_read st rt rd)).
Proof.
  intros Hs Hrt. unfold thread_read. rewrite Hs. simpl. rewrite Hrt. simpl.
  destruct (rd_ret rd =? 0); reflexivity.
Qed.

Lemma thread_locked_stopped st sub rt :
  pcm st !! sub = Some rt ->
  test_bit 0 st = false ->
  thread_locked st sub = Some (false, emit [SpinUnlock] (emit [SpinLock] st)).
Proof.
  intros Hrt Hrun. unfold thread_locked. rewrite Hrt.
  cbn [mbind option_bind]. cbv zeta.
  change (test_bit 0 (emit [SpinLock] st)) with (test_bit 0 st).
  rewrite Hrun. reflexivity.
Qed.

Lemma thread_locked_no_ring st sub rt :
  pcm st !! sub = Some rt ->
  test_bit 0 st = true ->
  dma_area rt = None ->
  thread_locked st sub =
    Some (false, emit [PcmErr MsgDmaBufferMissing; SpinUnlock] (emit [SpinLock] st)).
Proof.
  intros Hrt Hrun Hd. unfold thread_locked. rewrite Hrt.
  cbn [mbind option_bind]. cbv zeta.
  change (test_bit 0 (emit [SpinLock] st)) with (test_bit 0 st).
  rewrite Hrun, Hd. reflexivity.
Qed.

Lemma thread_locked_running st sub rt area :
  pcm st !! sub = Some rt ->
  test_bit 0 st = true ->
  dma_area rt = Some area ->
  thread_locked st sub =
    Some (true,
          emit [SpinUnlock]
            (with_ms (set_position (advance (to_ulong (position (ms st))) (buffer_size rt)))
               (with_runtime sub
                  (set_dma
                     (Some (snd (interleave (frag_buffer (ms st)) (channels rt) 0
                                   (Z.to_nat MATRIXIO_PERIOD_FRAMES)
                                   (frames_to_bytes rt (to_ulong (position (ms st))) / 2)
                                   area)))
                     (dma_bytes rt) rt)
                  (emit [SpinLock] st)))).
Proof.
  intros Hrt Hrun Hd. unfold thread_locked. rewrite Hrt.
  cbn [mbind option_bind]. cbv zeta.
  change (test_bit 0 (emit [SpinLock] st)) with (test_bit 0 st).
  rewrite Hrun, Hd. cbn [negb].
  change (atomic_read_position (emit [SpinLock] st)) with (position (ms st)).
  change (frag_buffer (ms (emit [SpinLock] st))) with (frag_buffer (ms st)).
  destruct (interleave _ _ _ _ _ _) as [buf' area']. reflexivity.
Qed.

Lemma test_bit_after_read nr st rt rd :
  test_bit nr (after_read st rt rd) = if decide (1 = nr) then false else test_bit nr st.
Proof. unfold after_read. rewrite test_bit_clear_bit. reflexivity. Qed.

(** What one run of the bottom half does when the bus read succeeds, the
    running bit is set and the ring is there. *)
Lemma thread_commit st rd sub rt area :
  substream (ms st) = Some sub ->
  pcm st !! sub = Some rt ->
  dma_area rt = Some area ->
  rd_ret rd = 0 ->
  test_bit 0 st = true ->
  exists st',
    matrixio_pcm_thread st rd = Some (IRQ_HANDLED, st') /\
    pcm st' = <[sub :=
      set_dma (Some (snd (interleave (rd_frag rd) (channels rt) 0
                            (Z.to_nat MATRIXIO_PERIOD_FRAMES)
                            (frames_to_bytes rt (to_ulong (position (ms st))) / 2)
                            area)))
              (dma_bytes rt) rt]> (pcm st) /\
    position (ms st') = advance (to_ulong (position (ms st))) (buffer_size rt) /\
    flags (ms st') = Z.clearbit (flags (ms st)) 1 /\
    substream (ms st') = Some sub /\
    frag_buffer (ms st') = rd_frag rd /\
    irq (ms st') = irq (ms st) /\
    klog st' = klog st ++
      [MatrixioRead MATRIXIO_MICARRAY_BASE (snd_pcm_lib_period_bytes rt);
       SmpMb; ClearBit 1; SpinLock; SpinUnlock; PeriodElapsed sub].
Proof.
  intros Hs Hrt Hd Hret Hrun.
  unfold matrixio_pcm_thread.
  rewrite (thread_read_eq st rd sub rt Hs Hrt), Hret. cbn [Z.eqb].
  rewrite (thread_locked_running _ sub rt area); [| exact Hrt | | exact Hd].
  2:{ rewrite test_bit_after_read. exact Hrun. }
  unfold thread_notify. simpl. rewrite Hs. simpl.
  eexists. split; [reflexivity|]. simpl.
  repeat split; try reflexivity; try assumption.
  rewrite <- !app_assoc. reflexivity.
Qed.

(** C2.  One bottom half with a successful bus read, while running and with
    the ring present, stores fragment word [c * PERIOD_FRAMES + i] in channel
    [c] of ring frame [P + i] (word [(P + i) * C + c] of the ring), for every
    [i] below PERIOD_FRAMES and [c] below the channel count [C], [P] being the
    position before; every other word keeps its value. *)
Theorem thread_deinterleaves st rd sub rt area :
  substream (ms st) = Some sub ->
  pcm st !! sub = Some rt ->
  dma_area rt = Some area ->
  rd_ret rd = 0 ->
  test_bit 0 st = true ->
  0 <= position (ms st) < 2 ^ 31 ->
  channels rt * MATRIXIO_PERIOD_FRAMES <= Z.of_nat (length (rd_frag rd)) ->
  exists st' rt' area',
    matrixio_pcm_thread st rd = Some (IRQ_HANDLED, st') /\
    pcm st' !! sub = Some rt' /\ dma_area rt' = Some area' /\
    (forall i c, 0 <= i < MATRIXIO_PERIOD_FRAMES -> 0 <= c < channels rt ->
       exists v,
         rd_frag rd !! Z.to_nat (c * MATRIXIO_PERIOD_FRAMES + i) = Some v /\
         area' !! ((position (ms st) + i) * channels rt + c) = Some v) /\
    (forall a, a < position (ms st) * channels rt \/
               (position (ms st) + MATRIXIO_PERIOD_FRAMES) * channels rt <= a ->
       area' !! a = area !! a).
Proof.
  intros Hs Hrt Hd Hret Hrun HP Hlen.
  destruct (thread_commit st rd sub rt area Hs Hrt Hd Hret Hrun)
    as (st' & Hst' & Hpcm & _).
  rewrite to_ulong_small, frames_to_words in Hpcm by lia.
  eexists st', _, _. split; [exact Hst'|].
  split; [rewrite Hpcm; apply lookup_insert_eq|].
  split; [reflexivity|]. split.
  - intros i c Hi Hc.
    assert (Hidx : (Z.to_nat (c * MATRIXIO_PERIOD_FRAMES + i) < length (rd_frag rd))%nat) by nia.
    destruct (lookup_lt_is_Some_2 _ _ Hidx) as [v Hv].
    exists v. split; [exact Hv|].
    replace ((position (ms st) + i) * channels rt + c)
      with (position (ms st) * channels rt + i * channels rt + c) by ring.
    rewrite interleave_written by lia.
    f_equal. unfold frag_at. rewrite Z.add_0_l.
    apply nth_lookup_Some with (d := 0) in Hv. exact Hv.
  - intros a Ha. apply interleave_other. nia.
Qed.

(** ** The position *)

Lemma advance_mod P B :
  0 < MATRIXIO_PERIOD_FRAMES <= B -> B < 2 ^ 31 -> 0 <= P < B ->
  advance (to_ulong P) B = (P + MATRIXIO_PERIOD_FRAMES) mod B.
Proof.
  intros HF HB HP. unfold advance.
  rewrite (to_ulong_small P) by lia.
  rewrite (to_ulong_small (P + MATRIXIO_PERIOD_FRAMES)) by lia.
  destruct (B <=? P + MATRIXIO_PERIOD_FRAMES) eqn:E.
  - apply Z.leb_le in E.
    rewrite to_ulong_small, to_int_small by lia.
    apply Z.mod_unique with (q := 1); lia.
  - apply Z.leb_gt in E. rewrite to_int_small, Z.mod_small by lia. reflexivity.
Qed.

Lemma advance_bound P B :
  0 < MATRIXIO_PERIOD_FRAMES <= B -> B < 2 ^ 31 -> 0 <= P < B ->
  0 <= advance (to_ulong P) B < B.
Proof.
  intros HF HB HP. rewrite advance_mod by assumption.
  apply Z.mod_pos_bound. lia.
Qed.

(** C7.  From a position below buffer_size, with PERIOD_FRAMES at most
    buffer_size, N bottom halves in a row whose bus reads succeed, while
    running and with the ring present, all complete and leave the position
    at (P + N * PERIOD_FRAMES) mod buffer_size; with buffer_size four periods
    and P = 0, five of them leave it at PERIOD_FRAMES. *)
Theorem periods_advance_position rds : forall st sub rt area,
  substream (ms st) = Some sub ->
  pcm st !! sub = Some rt ->
  dma_area rt = Some area ->
  test_bit 0 st = true ->
  Forall (fun rd => rd_ret rd = 0) rds ->
  0 < MATRIXIO_PERIOD_FRAMES <= buffer_size rt ->
  buffer_size rt < 2 ^ 31 ->
  0 <= position (ms st) < buffer_size rt ->
  exists st',
    run_periods st rds = Some st' /\
    position (ms st') =
      (position (ms st) + Z.of_nat (length rds) * MATRIXIO_PERIOD_FRAMES)
        mod buffer_size rt /\
    (buffer_size rt = 4 * MATRIXIO_PERIOD_FRAMES -> position (ms st) = 0 ->
     length rds = 5%nat -> position (ms st') = MATRIXIO_PERIOD_FRAMES).
Proof.
  assert (Hmain : forall st sub rt area,
    substream (ms st) = Some sub ->
    pcm st !! sub = Some rt ->
    dma_area rt = Some area ->
    test_bit 0 st = true ->
    Forall (fun rd => rd_ret rd = 0) rds ->
    0 < MATRIXIO_PERIOD_FRAMES <= buffer_size rt ->
    buffer_size rt < 2 ^ 31 ->
    0 <= position (ms st) < buffer_size rt ->
    exists st',
      run_periods st rds = Some st' /\
      position (ms st') =
        (position (ms st) + Z.of_nat (length rds) * MATRIXIO_PERIOD_FRAMES)
          mod buffer_size rt).
  { induction rds as [|rd rds IH]; intros st sub rt area Hs Hrt Hd Hrun Hok HF HB HP.
    - exists st. split; [reflexivity|]. simpl length.
      rewrite Z.mul_0_l, Z.add_0_r, Z.mod_small by lia. reflexivity.
    - inversion Hok as [|? ? Hret Hok']; subst.
      destruct (thread_commit st rd sub rt area Hs Hrt Hd Hret Hrun)
        as (st1 & Hst1 & Hpcm & Hpos & Hfl & Hs1 & _).
      rewrite advance_mod in Hpos by assumption.
      destruct (IH st1 sub
                  (set_dma (Some (snd (interleave (rd_frag rd) (channels rt) 0
                                         (Z.to_nat MATRIXIO_PERIOD_FRAMES)
                                         (frames_to_bytes rt (to_ulong (position (ms st))) / 2)
                                         area)))
                           (dma_bytes rt) rt)
                  (snd (interleave (rd_frag rd) (channels rt) 0
                          (Z.to_nat MATRIXIO_PERIOD_FRAMES)
                          (frames_to_bytes rt (to_ulong (position (ms st))) / 2)
                          area)))
        as (st' & Hrun' & Hpos'); try assumption; try reflexivity.
      + rewrite Hpcm. apply lookup_insert_eq.
      + unfold test_bit. rewrite Hfl, Z.clearbit_neq by lia. exact Hrun.
      + rewrite Hpos. apply Z.mod_pos_bound. simpl. lia.
      + exists st'. split.
        * simpl. rewrite Hst1. exact Hrun'.
        * rewrite Hpos', Hpos. simpl buffer_size.
          rewrite Z.add_mod_idemp_l by lia. f_equal.
          change (length (rd :: rds)) with (S (length rds)). lia. }
  intros st sub rt area Hs Hrt Hd Hrun Hok HF HB HP.
  destruct (Hmain st sub rt area Hs Hrt Hd Hrun Hok HF HB HP) as (st' & Hr & Hpos).
  exists st'. split; [exact Hr|]. split; [exact Hpos|].
  intros H4 H0 H5. rewrite Hpos, H4, H0, H5.
  symmetry. apply Z.mod_unique with (q := 1); lia.
Qed.

(** ** The driver in its environment *)

Definition is_start (e : event) : bool :=
  match e with
  | EvTrigger _ cmd => cmd =? SNDRV_PCM_TRIGGER_START
  | _ => false
  end.

Definition is_bottom_half (e : event) : bool :=
  match e with
  | EvThreadRead _ | EvThreadLocked => true
  | _ => false
  end.

(** Every hw_params of the session asks for a buffer of [B] frames. *)
Definition session_buffer (B : Z) (e : event) : Prop :=
  match e with
  | EvHwParams _ p _ => params_buffer_size p = B
  | _ => True
  end.

(** Every ring that exists belongs to a runtime of [B] frames. *)
Definition rings_sized (B : Z) (m : gmap nat snd_pcm_runtime) : Prop :=
  forall sub rt, m !! sub = Some rt -> dma_area rt <> None -> buffer_size rt = B.

Definition position_inv (B : Z) (s : sys) : Prop :=
  0 <= position (ms (kern s)) < B /\ rings_sized B (pcm (kern s)).

Lemma rings_sized_insert B m sub r :
  rings_sized B m -> (dma_area r <> None -> buffer_size r = B) ->
  rings_sized B (<[sub := r]> m).
Proof.
  intros Hm Hr sub' rt. rewrite lookup_insert. case_decide.
  - intros [= <-]. exact Hr.
  - apply Hm.
Qed.

Lemma rings_sized_delete B m sub :
  rings_sized B m -> rings_sized B (delete sub m).
Proof.
  intros Hm sub' rt. rewrite lookup_delete. case_decide; [discriminate|]. apply Hm.
Qed.

(** What the callbacks that leave the runtimes alone do to the position and
    to the running bit. *)
Lemma open_frame st sub irq_ret :
  let st' := snd (matrixio_pcm_open st sub irq_ret) in
  pcm st' = pcm st /\
  (position (ms st') = position (ms st) \/ position (ms st') = 0) /\
  (test_bit 0 st = false -> test_bit 0 st' = false).
Proof.
  unfold matrixio_pcm_open. cbv zeta.
  change (substream (ms (emit _ st))) with (substream (ms st)).
  destruct (substream (ms st)).
  - simpl. auto.
  - destruct (irq_ret <? 0); simpl; (split; [reflexivity|]); (split; [right; reflexivity|]);
      intros _; unfold test_bit; simpl; apply Z.clearbit_eq.
Qed.

Lemma close_frame st sub :
  let st' := snd (matrixio_pcm_close st sub) in
  pcm st' = pcm st /\ position (ms st') = position (ms st) /\
  test_bit 0 st' = false.
Proof.
  unfold matrixio_pcm_close, test_bit. simpl. repeat split. apply Z.clearbit_eq.
Qed.

Lemma trigger_frame st sub cmd :
  let st' := snd (matrixio_pcm_trigger st sub cmd) in
  pcm st' = pcm st /\ position (ms st') = position (ms st) /\
  (cmd <> SNDRV_PCM_TRIGGER_START -> test_bit 0 st = false -> test_bit 0 st' = false) /\
  (cmd = SNDRV_PCM_TRIGGER_STOP -> test_bit 0 st' = false).
Proof.
  unfold matrixio_pcm_trigger.
  destruct (cmd =? SNDRV_PCM_TRIGGER_START) eqn:E1.
  - apply Z.eqb_eq in E1. simpl. repeat split; try contradiction.
    intros ->. discriminate.
  - destruct (cmd =? SNDRV_PCM_TRIGGER_STOP) eqn:E0.
    + unfold test_bit. simpl. repeat split; intros; apply Z.clearbit_eq.
    + apply Z.eqb_neq in E0. simpl. repeat split; auto. contradiction.
Qed.

Lemma interrupt_frame st :
  let st' := snd (matrixio_pcm_interrupt st) in
  pcm st' = pcm st /\ position (ms st') = position (ms st) /\
  (test_bit 0 st = false -> st' = st).
Proof.
  unfold matrixio_pcm_interrupt.
  destruct (substream (ms st)); [|simpl; auto].
  destruct (test_bit 0 st) eqn:E; simpl; [|auto].
  destruct (Z.testbit (flags (ms st)) 1); simpl; repeat split; discriminate.
Qed.

Lemma prepare_frame st sub ret st' :
  matrixio_pcm_prepare st sub = Some (ret, st') ->
  pcm st' = pcm st /\
  (position (ms st') = position (ms st) \/ position (ms st') = 0) /\
  flags (ms st') = flags (ms st).
Proof.
  unfold matrixio_pcm_prepare.
  destruct (pcm st !! sub) as [rt|]; simpl; [|discriminate].
  destruct (negb _); intros [= <- <-]; simpl; auto.
Qed.

Lemma hw_free_frame st sub ret st' :
  matrixio_pcm_hw_free st sub = Some (ret, st') ->
  ms st' = ms st /\
  exists rt, pcm st !! sub = Some rt /\
             pcm st' = <[sub := set_dma None (dma_bytes rt) rt]> (pcm st).
Proof.
  unfold matrixio_pcm_hw_free.
  destruct (test_bit 0 st); simpl;
    (destruct (pcm st !! sub) as [rt|]; simpl; [|discriminate]);
    intros [= <- <-]; simpl; eauto.
Qed.

Lemma hw_params_frame st sub p ok ret st' :
  matrixio_pcm_hw_params st sub p ok = Some (ret, st') ->
  ms st' = ms st /\
  (pcm st' = pcm st /\ ret < 0 \/
   exists rt,
     pcm st !! sub = Some rt /\
     ret = fst (snd_pcm_lib_alloc_vmalloc_buffer ok (params_buffer_bytes p) rt) /\
     pcm st' = <[sub := snd (snd_pcm_lib_alloc_vmalloc_buffer ok (params_buffer_bytes p) rt)]>
                 (pcm st)).
Proof.
  unfold matrixio_pcm_hw_params.
  destruct (negb _); [intros [= <- <-]; unfold EINVAL; auto with lia|].
  destruct (lookup_rate _ _); [|intros [= <- <-]; unfold EINVAL; auto with lia].
  destruct (lookup_fir _ _); [|intros [= <- <-]; unfold EINVAL; simpl; auto with lia].
  simpl. destruct (pcm st !! sub) as [rt|]; simpl; [|discriminate].
  destruct (snd_pcm_lib_alloc_vmalloc_buffer _ _ _) as [ret0 rt'] eqn:E.
  intros [= <- <-]. simpl. split; [reflexivity|]. right. exists rt.
  rewrite E. repeat split.
Qed.

Lemma alloc_failed_no_ring ok size rt :
  fst (snd_pcm_lib_alloc_vmalloc_buffer ok size rt) < 0 ->
  dma_area (snd (snd_pcm_lib_alloc_vmalloc_buffer ok size rt)) = None.
Proof.
  unfold snd_pcm_lib_alloc_vmalloc_buffer.
  destruct (dma_area rt), ok; simpl; try destruct (size <=? dma_bytes rt); simpl;
    unfold ENOMEM; try lia; reflexivity.
Qed.

Lemma alloc_keeps_geometry ok size rt :
  buffer_size (snd (snd_pcm_lib_alloc_vmalloc_buffer ok size rt)) = buffer_size rt.
Proof.
  unfold snd_pcm_lib_alloc_vmalloc_buffer.
  destruct (dma_area rt), ok; simpl; try destruct (size <=? dma_bytes rt); reflexivity.
Qed.

Lemma thread_read_frame st rd sub go_on st' :
  thread_read st rd = Some (sub, go_on, st') ->
  pcm st' = pcm st /\ position (ms st') = position (ms st) /\
  test_bit 0 st' = test_bit 0 st /\
  substream (ms st) = Some sub /\ is_Some (pcm st !! sub).
Proof.
  intros H. destruct (substream (ms st)) as [sub0|] eqn:Hs.
  2:{ unfold thread_read in H. rewrite Hs in H. discriminate. }
  destruct (pcm st !! sub0) as [rt|] eqn:Hrt.
  2:{ unfold thread_read in H. rewrite Hs in H. simpl in H. rewrite Hrt in H. discriminate. }
  rewrite (thread_read_eq st rd sub0 rt Hs Hrt) in H. injection H as <- _ <-.
  assert (Hb : test_bit 0 (after_read st rt rd) = test_bit 0 st)
    by (rewrite test_bit_after_read; reflexivity).
  destruct (rd_ret rd =? 0); repeat split; eauto.
Qed.

Lemma step_keeps_stopped s e s' :
  is_start e = false ->
  test_bit 0 (kern s) = false ->
  step s e = Some s' ->
  test_bit 0 (kern s') = false.
Proof.
  intros Hns Hstop Hstep. destruct e; unfold step in Hstep; cbv beta iota zeta in Hstep.
  - destruct (pcm (kern s) !! sub); [discriminate|].
    pose proof (open_frame (with_runtime sub runtime0 (kern s)) sub irq_ret) as (_ & _ & Hb).
    destruct (matrixio_pcm_open _ _ _) as [ret st1]. simpl in Hb.
    injection Hstep as <-. simpl. specialize (Hb Hstop).
    destruct (ret <? 0); exact Hb.
  - destruct (pcm (kern s) !! sub); [|discriminate].
    destruct (irq_thread s); [|discriminate].
    pose proof (close_frame (kern s) sub) as (_ & _ & Hb).
    destruct (matrixio_pcm_close _ _) as [ret st1]. simpl in Hb.
    injection Hstep as <-. exact Hb.
  - destruct (matrixio_pcm_hw_params _ _ _ _) as [[ret st1]|] eqn:E; [|discriminate].
    apply hw_params_frame in E as [Hms _].
    assert (Hb : test_bit 0 st1 = false) by (unfold test_bit; rewrite Hms; exact Hstop).
    destruct (ret <? 0); [injection Hstep as <-; exact Hb|].
    destruct (pcm st1 !! sub); [|discriminate]. injection Hstep as <-. exact Hb.
  - destruct (matrixio_pcm_hw_free _ _) as [[ret st1]|] eqn:E; [|discriminate].
    apply hw_free_frame in E as [Hms _]. injection Hstep as <-. simpl.
    unfold test_bit. rewrite Hms. exact Hstop.
  - destruct (matrixio_pcm_prepare _ _) as [[ret st1]|] eqn:E; [|discriminate].
    apply prepare_frame in E as (_ & _ & Hfl). injection Hstep as <-. simpl.
    unfold test_bit. rewrite Hfl. exact Hstop.
  - destruct (pcm (kern s) !! sub); [|discriminate].
    pose proof (trigger_frame (kern s) sub cmd) as (_ & _ & Hb & _).
    destruct (matrixio_pcm_trigger _ _ _) as [ret st1]. simpl in Hb, Hstep.
    injection Hstep as <-. simpl. apply Hb; [|exact Hstop].
    simpl in Hns. apply Z.eqb_neq in Hns. exact Hns.
  - destruct (pcm (kern s) !! sub); [|discriminate]. injection Hstep as <-. exact Hstop.
  - pose proof (interrupt_frame (kern s)) as (_ & _ & Hb).
    injection Hstep as <-. simpl. simpl in Hb. rewrite (Hb Hstop). exact Hstop.
  - destruct (irq_thread s); [|discriminate].
    destruct (thread_read _ _) as [[[sub go_on] st1]|] eqn:E; [|discriminate].
    apply thread_read_frame in E as (_ & _ & Hb & _).
    injection Hstep as <-. simpl. rewrite Hb. exact Hstop.
  - destruct (irq_thread s) as [|sub]; [discriminate|].
    destruct (pcm (kern s) !! sub) as [rt|] eqn:Hrt.
    2:{ unfold thread_locked in Hstep. rewrite Hrt in Hstep. discriminate. }
    rewrite (thread_locked_stopped _ sub rt Hrt Hstop) in Hstep.
    injection Hstep as <-. exact Hstop.
Qed.

Lemma bottom_half_stopped s e s' :
  is_bottom_half e = true ->
  test_bit 0 (kern s) = false ->
  step s e = Some s' ->
  pcm (kern s') = pcm (kern s) /\
  position (ms (kern s')) = position (ms (kern s)).
Proof.
  intros Hbh Hstop Hstep. destruct e; try discriminate;
    unfold step in Hstep; cbv beta iota zeta in Hstep.
  - destruct (irq_thread s); [|discriminate].
    destruct (thread_read _ _) as [[[sub go_on] st1]|] eqn:E; [|discriminate].
    apply thread_read_frame in E as (Hp & Hpos & _).
    injection Hstep as <-. simpl. auto.
  - destruct (irq_thread s) as [|sub]; [discriminate|].
    destruct (pcm (kern s) !! sub) as [rt|] eqn:Hrt.
    2:{ unfold thread_locked in Hstep. rewrite Hrt in Hstep. discriminate. }
    rewrite (thread_locked_stopped _ sub rt Hrt Hstop) in Hstep.
    injection Hstep as <-. simpl. auto.
Qed.

Lemma run_keeps_stopped es : forall s s',
  forallb (fun e => negb (is_start e)) es = true ->
  test_bit 0 (kern s) = false ->
  run s es = Some s' ->
  test_bit 0 (kern s') = false.
Proof.
  induction es as [|e es IH]; intros s s' Hns Hstop Hrun; simpl in *.
  - injection Hrun as <-. exact Hstop.
  - apply andb_prop in Hns as [He Hes]. apply negb_true_iff in He.
    destruct (step s e) as [s1|] eqn:E; [|discriminate].
    apply (IH s1 s' Hes); [|exact Hrun].
    exact (step_keeps_stopped s e s1 He Hstop E).
Qed.

(** C3.  Once trigger(STOP) has returned, and as long as no trigger(START)
    follows, whatever callbacks, interrupts and handler steps come next, a
    step of the bottom half (its bus read, or its section under worker_lock,
    be it of a thread that had done its read before the stop) leaves every
    ring and the position as they are. *)
Theorem stop_fences_bottom_half s sub s0 es e s1 s2 :
  step s (EvTrigger sub SNDRV_PCM_TRIGGER_STOP) = Some s0 ->
  forallb (fun e => negb (is_start e)) es = true ->
  run s0 es = Some s1 ->
  is_bottom_half e = true ->
  step s1 e = Some s2 ->
  test_bit 0 (kern s1) = false /\
  pcm (kern s2) = pcm (kern s1) /\
  position (ms (kern s2)) = position (ms (kern s1)).
Proof.
  intros Hstop Hes Hrun Hbh Hstep.
  assert (H0 : test_bit 0 (kern s0) = false).
  { unfold step in Hstop. cbv beta iota zeta in Hstop.
    destruct (pcm (kern s) !! sub); [|discriminate].
    pose proof (trigger_frame (kern s) sub SNDRV_PCM_TRIGGER_STOP) as (_ & _ & _ & Hb).
    destruct (matrixio_pcm_trigger _ _ _) as [ret st1]. simpl in Hb, Hstop.
    injection Hstop as <-. simpl. apply Hb. reflexivity. }
  pose proof (run_keeps_stopped es s0 s1 Hes H0 Hrun) as H1.
  split; [exact H1|]. exact (bottom_half_stopped s1 e s2 Hbh H1 Hstep).
Qed.

Lemma step_position_inv B s e s' :
  0 < MATRIXIO_PERIOD_FRAMES <= B -> B < 2 ^ 31 ->
  session_buffer B e ->
  position_inv B s ->
  step s e = Some s' ->
  position_inv B s'.
Proof.
  intros HF HB He [Hpos Hrings] Hstep. unfold position_inv.
  destruct e; unfold step in Hstep; cbv beta iota zeta in Hstep.
  - destruct (pcm (kern s) !! sub); [discriminate|].
    pose proof (open_frame (with_runtime sub runtime0 (kern s)) sub irq_ret) as (Hp & Hq & _).
    destruct (matrixio_pcm_open _ _ _) as [ret st1]. simpl in Hp, Hq.
    injection Hstep as <-. simpl.
    assert (Hr1 : rings_sized B (pcm st1)).
    { rewrite Hp. apply rings_sized_insert; [exact Hrings|]. simpl. congruence. }
    destruct (ret <? 0); simpl; (split; [lia|]); [apply rings_sized_delete|]; exact Hr1.
  - destruct (pcm (kern s) !! sub); [|discriminate].
    destruct (irq_thread s); [|discriminate].
    pose proof (close_frame (kern s) sub) as (Hp & Hq & _).
    destruct (matrixio_pcm_close _ _) as [ret st1]. simpl in Hp, Hq.
    injection Hstep as <-. simpl. rewrite Hp, Hq.
    split; [exact Hpos|]. apply rings_sized_delete. exact Hrings.
  - destruct (matrixio_pcm_hw_params _ _ _ _) as [[ret st1]|] eqn:E; [|discriminate].
    apply hw_params_frame in E as [Hms Hcases]. simpl in He.
    destruct Hcases as [[Hp Hneg]|(rt & Hrt & Hret & Hp)].
    + apply Z.ltb_lt in Hneg. rewrite Hneg in Hstep. injection Hstep as <-. simpl.
      rewrite Hms, Hp. auto.
    + destruct (ret <? 0) eqn:Eneg.
      * injection Hstep as <-. simpl. rewrite Hms, Hp. split; [exact Hpos|].
        apply rings_sized_insert; [exact Hrings|].
        rewrite alloc_failed_no_ring; [congruence|]. apply Z.ltb_lt in Eneg. lia.
      * destruct (pcm st1 !! sub) as [rt1|]; [|discriminate].
        injection Hstep as <-. simpl. rewrite Hms, Hp, insert_insert_eq.
        split; [exact Hpos|].
        apply rings_sized_insert; [exact Hrings|]. intros _. exact He.
  - destruct (matrixio_pcm_hw_free _ _) as [[ret st1]|] eqn:E; [|discriminate].
    apply hw_free_frame in E as (Hms & rt & Hrt & Hp). injection Hstep as <-. simpl.
    rewrite Hms, Hp. split; [exact Hpos|].
    apply rings_sized_insert; [exact Hrings|]. simpl. congruence.
  - destruct (matrixio_pcm_prepare _ _) as [[ret st1]|] eqn:E; [|discriminate].
    apply prepare_frame in E as (Hp & Hq & _). injection Hstep as <-. simpl.
    rewrite Hp. split; [lia|exact Hrings].
  - destruct (pcm (kern s) !! sub); [|discriminate].
    pose proof (trigger_frame (kern s) sub cmd) as (Hp & Hq & _).
    destruct (matrixio_pcm_trigger _ _ _) as [ret st1]. simpl in Hp, Hq, Hstep.
    injection Hstep as <-. simpl. rewrite Hp, Hq. auto.
  - destruct (pcm (kern s) !! sub); [|discriminate]. injection Hstep as <-. auto.
  - pose proof (interrupt_frame (kern s)) as (Hp & Hq & _). simpl in Hp, Hq.
    injection Hstep as <-. simpl. rewrite Hp, Hq. auto.
  - destruct (irq_thread s); [|discriminate].
    destruct (thread_read _ _) as [[[sub go_on] st1]|] eqn:E; [|discriminate].
    apply thread_read_frame in E as (Hp & Hq & _).
    injection Hstep as <-. simpl. rewrite Hp, Hq. auto.
  - destruct (irq_thread s) as [|sub]; [discriminate|].
    destruct (pcm (kern s) !! sub) as [rt|] eqn:Hrt.
    2:{ unfold thread_locked in Hstep. rewrite Hrt in Hstep. discriminate. }
    destruct (test_bit 0 (kern s)) eqn:Hrun.
    2:{ rewrite (thread_locked_stopped _ sub rt Hrt Hrun) in Hstep.
        injection Hstep as <-. simpl. auto. }
    destruct (dma_area rt) as [area|] eqn:Hd.
    2:{ rewrite (thread_locked_no_ring _ sub rt Hrt Hrun Hd) in Hstep.
        injection Hstep as <-. simpl. auto. }
    rewrite (thread_locked_running _ sub rt area Hrt Hrun Hd) in Hstep.
    assert (HBrt : buffer_size rt = B) by (apply (Hrings sub rt Hrt); congruence).
    unfold thread_notify in Hstep. simpl in Hstep.
    destruct (substream (ms (kern s))); simpl in Hstep; [|discriminate].
    injection Hstep as <-. simpl. rewrite HBrt. split.
    + apply advance_bound; assumption.
    + apply rings_sized_insert; [exact Hrings|]. intros _. exact HBrt.
Qed.

Lemma run_position_inv B es : forall s s',
  0 < MATRIXIO_PERIOD_FRAMES <= B -> B < 2 ^ 31 ->
  Forall (session_buffer B) es ->
  position_inv B s ->
  run s es = Some s' ->
  position_inv B s'.
Proof.
  induction es as [|e es IH]; intros s s' HF HB Hes Hinv Hrun; simpl in Hrun.
  - injection Hrun as <-. exact Hinv.
  - inversion Hes as [|? ? He Hes']; subst.
    destruct (step s e) as [s1|] eqn:E; [|discriminate].
    apply (IH s1 s' HF HB Hes'); [|exact Hrun].
    exact (step_position_inv B s e s1 HF HB He Hinv E).
Qed.

(** C4.  In a session whose buffer is [n] periods long, [n] at least 1,
    whatever callbacks, interrupts and handler steps have run since probe,
    the position that pointer returns is at least 0 and below buffer_size;
    and open, prepare and a bottom half each keep it so. *)
Theorem position_in_bounds n line frag es s :
  1 <= n ->
  0 < MATRIXIO_PERIOD_FRAMES ->
  n * MATRIXIO_PERIOD_FRAMES < 2 ^ 31 ->
  Forall (session_buffer (n * MATRIXIO_PERIOD_FRAMES)) es ->
  run (probe_state line frag) es = Some s ->
  0 <= matrixio_pcm_pointer (kern s) < n * MATRIXIO_PERIOD_FRAMES /\
  (forall e s', session_buffer (n * MATRIXIO_PERIOD_FRAMES) e ->
     step s e = Some s' ->
     0 <= matrixio_pcm_pointer (kern s') < n * MATRIXIO_PERIOD_FRAMES).
Proof.
  intros Hn HF HB Hes Hrun.
  assert (HFB : 0 < MATRIXIO_PERIOD_FRAMES <= n * MATRIXIO_PERIOD_FRAMES) by nia.
  assert (Hinv : position_inv (n * MATRIXIO_PERIOD_FRAMES) s).
  { apply (run_position_inv _ es (probe_state line frag) s HFB HB Hes); [|exact Hrun].
    split; simpl; [lia|]. intros sub rt. rewrite lookup_empty. discriminate. }
  split; [exact (proj1 Hinv)|].
  intros e s' He Hstep.
  exact (proj1 (step_position_inv _ s e s' HFB HB He Hinv Hstep)).
Qed.

(** ** Further properties of the callbacks and the handlers *)

(** *** The bottom half, path by path *)

Lemma thread_eq_error st rd sub rt :
  substream (ms st) = Some sub ->
  pcm st !! sub = Some rt ->
  rd_ret rd <> 0 ->
  matrixio_pcm_thread st rd =
    Some (IRQ_HANDLED, emit [PcmErr (MsgSpiReadFailed (rd_ret rd))] (after_read st rt rd)).
Proof.
  intros Hs Hrt Hret. unfold matrixio_pcm_thread.
  rewrite (thread_read_eq st rd sub rt Hs Hrt).
  destruct (rd_ret rd =? 0) eqn:E; [apply Z.eqb_eq in E; contradiction|reflexivity].
Qed.

Lemma thread_eq_stopped st rd sub rt :
  substream (ms st) = Some sub ->
  pcm st !! sub = Some rt ->
  rd_ret rd = 0 ->
  test_bit 0 st = false ->
  matrixio_pcm_thread st rd =
    Some (IRQ_HANDLED, emit [SpinUnlock] (emit [SpinLock] (after_read st rt rd))).
Proof.
  intros Hs Hrt Hret Hrun. unfold matrixio_pcm_thread.
  rewrite (thread_read_eq st rd sub rt Hs Hrt), Hret. cbn [Z.eqb].
  rewrite (thread_locked_stopped _ sub rt); [reflexivity|exact Hrt|].
  rewrite test_bit_after_read. exact Hrun.
Qed.

Lemma thread_eq_no_ring st rd sub rt :
  substream (ms st) = Some sub ->
  pcm st !! sub = Some rt ->
  rd_ret rd = 0 ->
  test_bit 0 st = true ->
  dma_area rt = None ->
  matrixio_pcm_thread st rd =
    Some (IRQ_HANDLED,
          emit [PcmErr MsgDmaBufferMissing; SpinUnlock]
            (emit [SpinLock] (after_read st rt rd))).
Proof.
  intros Hs Hrt Hret Hrun Hd. unfold matrixio_pcm_thread.
  rewrite (thread_read_eq st rd sub rt Hs Hrt), Hret. cbn [Z.eqb].
  rewrite (thread_locked_no_ring _ sub rt); [reflexivity|exact Hrt| |exact Hd].
  rewrite test_bit_after_read. exact Hrun.
Qed.

Lemma test_bit_emit nr es st : test_bit nr (emit es st) = test_bit nr st.
Proof. reflexivity. Qed.

(** The four paths of the bottom half at once. *)
Lemma thread_paths st rd sub rt :
  substream (ms st) = Some sub ->
  pcm st !! sub = Some rt ->
  let commits := rd_ret rd = 0 /\ test_bit 0 st = true /\ dma_area rt <> None in
  exists st' tail,
    matrixio_pcm_thread st rd = Some (IRQ_HANDLED, st') /\
    klog st' = klog st ++ tail /\
    (In (PeriodElapsed sub) tail <-> commits) /\
    (forall m, ~ In (PcmWarn m) tail) /\
    test_bit 1 st' = false /\
    test_bit 0 st' = test_bit 0 st /\
    substream (ms st') = Some sub /\
    is_Some (pcm st' !! sub) /\
    frag_buffer (ms st') = rd_frag rd /\
    (~ commits -> pcm st' = pcm st /\ position (ms st') = position (ms st)).
Proof.
  intros Hs Hrt. cbv zeta.
  assert (Hb1 : test_bit 1 (after_read st rt rd) = false)
    by (rewrite test_bit_after_read; reflexivity).
  assert (Hb0 : test_bit 0 (after_read st rt rd) = test_bit 0 st)
    by (rewrite test_bit_after_read; reflexivity).
  assert (Hsome : is_Some (pcm st !! sub)) by (rewrite Hrt; eauto).
  destruct (Z.eq_dec (rd_ret rd) 0) as [Hret|Hret].
  2:{ rewrite (thread_eq_error st rd sub rt Hs Hrt Hret).
      eexists _, [_; _; _; _]. split; [reflexivity|].
      split; [simpl; rewrite <- !app_assoc; reflexivity|].
      simpl. rewrite !test_bit_emit.
      repeat split; try assumption; try tauto; intros; intuition discriminate. }
  destruct (test_bit 0 st) eqn:Hrun.
  2:{ rewrite (thread_eq_stopped st rd sub rt Hs Hrt Hret Hrun).
      eexists _, [_; _; _; _; _]. split; [reflexivity|].
      split; [simpl; rewrite <- !app_assoc; reflexivity|].
      simpl. rewrite !test_bit_emit.
      repeat split; try assumption; try tauto; intros; intuition discriminate. }
  destruct (dma_area rt) as [area|] eqn:Hd.
  2:{ rewrite (thread_eq_no_ring st rd sub rt Hs Hrt Hret Hrun Hd).
      eexists _, [_; _; _; _; _; _]. split; [reflexivity|].
      split; [simpl; rewrite <- !app_assoc; reflexivity|].
      simpl. rewrite !test_bit_emit.
      repeat split; try assumption; try tauto; intros;
        intuition (discriminate || congruence). }
  destruct (thread_commit st rd sub rt area Hs Hrt Hd Hret Hrun)
    as (st' & Hst' & Hpcm & _ & Hfl & Hs' & Hfrag & _ & Hlog).
  exists st', [MatrixioRead MATRIXIO_MICARRAY_BASE (snd_pcm_lib_period_bytes rt);
               SmpMb; ClearBit 1; SpinLock; SpinUnlock; PeriodElapsed sub].
  split; [exact Hst'|]. split; [exact Hlog|].
  assert (Hc : rd_ret rd = 0 /\ true = true /\ Some area <> None)
    by (repeat split; [assumption|discriminate]).
  split; [simpl; tauto|].
  split; [intros m Hin; simpl in Hin; intuition discriminate|].
  split; [unfold test_bit; rewrite Hfl; apply Z.clearbit_eq|].
  split; [unfold test_bit in *; rewrite Hfl, Z.clearbit_neq by lia; exact Hrun|].
  split; [exact Hs'|].
  split; [rewrite Hpcm, lookup_insert_eq; eauto|].
  split; [exact Hfrag|].
  intros Hn. contradiction.
Qed.

(** X1.  With a substream bound, the bottom half always returns
    IRQ_HANDLED.  It leaves the transfer bit clear, the running bit and the
    bound substream as they were, and the fragment buffer holding what the
    bus delivered.  It notifies a period exactly when the bus read succeeded,
    the running bit is set and the ring exists; in every other case the
    runtimes and the position are untouched. *)
Theorem thread_outcome st rd sub rt :
  substream (ms st) = Some sub ->
  pcm st !! sub = Some rt ->
  let commits := rd_ret rd = 0 /\ test_bit 0 st = true /\ dma_area rt <> None in
  exists st' tail,
    matrixio_pcm_thread st rd = Some (IRQ_HANDLED, st') /\
    klog st' = klog st ++ tail /\
    (In (PeriodElapsed sub) tail <-> commits) /\
    (forall m, ~ In (PcmWarn m) tail) /\
    test_bit 1 st' = false /\
    test_bit 0 st' = test_bit 0 st /\
    substream (ms st') = Some sub /\
    is_Some (pcm st' !! sub) /\
    frag_buffer (ms st') = rd_frag rd /\
    (~ commits -> pcm st' = pcm st /\ position (ms st') = position (ms st)).
Proof.
  exact (thread_paths st rd sub rt).
Qed.


(** *** Interrupts served one after the other *)

Lemma irq_cycle_quiet st rd sub :
  substream (ms st) = Some sub ->
  is_Some (pcm st !! sub) ->
  test_bit 1 st = false ->
  exists st' tail,
    irq_cycle st rd = Some st' /\
    klog st' = klog st ++ tail /\
    (forall m, ~ In (PcmWarn m) tail) /\
    substream (ms st') = Some sub /\
    is_Some (pcm st' !! sub) /\
    test_bit 1 st' = false /\
    test_bit 0 st' = test_bit 0 st.
Proof.
  intros Hs [rt Hrt] Hx. unfold irq_cycle, matrixio_pcm_interrupt. rewrite Hs.
  destruct (test_bit 0 st) eqn:Hrun; cbn [negb].
  2:{ exists st, []. rewrite app_nil_r. repeat split; eauto. }
  unfold test_and_set_bit. change (Z.testbit (flags (ms st)) 1) with (test_bit 1 st).
  rewrite Hx.
  set (st1 := emit [TestAndSetBit 1] (with_ms (set_flags (Z.setbit (flags (ms st)) 1)) st)).
  destruct (thread_paths st1 rd sub rt Hs Hrt)
    as (st' & tail & Hrun' & Hlog & _ & Hw & Hb1 & Hb0 & Hs' & Hsome & _).
  rewrite Hrun'. exists st', (TestAndSetBit 1 :: tail).
  split; [reflexivity|]. split.
  { rewrite Hlog. unfold st1. simpl. rewrite <- app_assoc. reflexivity. }
  split.
  { intros m [H|H]; [discriminate|]. exact (Hw m H). }
  repeat split; try assumption.
  rewrite Hb0. unfold st1, test_bit in *. simpl.
  rewrite Z.setbit_neq by lia. exact Hrun.
Qed.

(** X2.  With a substream bound and the transfer bit clear, any number of
    interrupts, each served by its bottom half before the next one arrives,
    all complete, whatever the bus reads return, and the trace gains no
    overflow warning; the transfer bit is clear again at the end and the
    running bit is what it was. *)
Theorem cycles_without_overflow rds : forall st sub,
  substream (ms st) = Some sub ->
  is_Some (pcm st !! sub) ->
  test_bit 1 st = false ->
  exists st' tail,
    run_cycles st rds = Some st' /\
    klog st' = klog st ++ tail /\
    (forall m, ~ In (PcmWarn m) tail) /\
    test_bit 1 st' = false /\
    test_bit 0 st' = test_bit 0 st.
Proof.
  induction rds as [|rd rds IH]; intros st sub Hs Hsome Hx.
  - exists st, []. rewrite app_nil_r. repeat split; auto.
  - destruct (irq_cycle_quiet st rd sub Hs Hsome Hx)
      as (st1 & tail1 & Hc & Hlog1 & Hw1 & Hs1 & Hsome1 & Hx1 & Hr1).
    destruct (IH st1 sub Hs1 Hsome1 Hx1) as (st' & tail & Hrun & Hlog & Hw & Hx' & Hr').
    exists st', (tail1 ++ tail). simpl. rewrite Hc.
    split; [exact Hrun|]. split; [rewrite Hlog, Hlog1, app_assoc; reflexivity|].
    split.
    { intros m Hin. apply in_app_or in Hin as [Hin|Hin]; [exact (Hw1 m Hin)|exact (Hw m Hin)]. }
    split; [exact Hx'|]. rewrite Hr'. exact Hr1.
Qed.

(** *** open and close *)

(** X3.  With no substream bound and the interrupt line granted, open
    returns 0 and binds the substream with the position at 0 and the running
    bit clear; the running bit is cleared before the line is requested, so
    whatever the flags were an interrupt that arrives right after open is
    swallowed: the top half returns IRQ_HANDLED and changes nothing. *)
Theorem open_binds st sub irq_ret :
  substream (ms st) = None ->
  0 <= irq_ret ->
  exists st',
    matrixio_pcm_open st sub irq_ret = (0, st') /\
    substream (ms st') = Some sub /\
    position (ms st') = 0 /\
    test_bit 0 st' = false /\
    test_bit 1 st' = test_bit 1 st /\
    pcm st' = pcm st /\
    klog st' = klog st ++
      [SetRuntimeHwparams sub; HwConstraintInteger sub;
       HwConstraintStep sub MATRIXIO_PERIOD_FRAMES;
       HwConstraintSingle sub MATRIXIO_PERIOD_FRAMES; SetSync sub;
       ClearBit 0; SmpMb; RequestThreadedIrq (irq (ms st))] /\
    matrixio_pcm_interrupt st' = (IRQ_HANDLED, st').
Proof.
  intros Hs Hret. unfold matrixio_pcm_open. cbv zeta.
  change (substream (ms (emit _ st))) with (substream (ms st)). rewrite Hs.
  destruct (irq_ret <? 0) eqn:E; [apply Z.ltb_lt in E; lia|].
  eexists. split; [reflexivity|].
  unfold matrixio_pcm_interrupt, test_bit. simpl.
  rewrite Z.clearbit_eq, Z.clearbit_neq by lia. simpl.
  repeat split. rewrite <- !app_assoc. reflexivity.
Qed.

(** X4.  With no substream bound and the interrupt line refused, open
    returns the error of request_threaded_irq and leaves no substream bound,
    so that open can be tried again at once; the position and the running bit
    have been reset all the same. *)
Theorem open_irq_failure st sub irq_ret :
  substream (ms st) = None ->
  irq_ret < 0 ->
  exists st',
    matrixio_pcm_open st sub irq_ret = (irq_ret, st') /\
    substream (ms st') = None /\
    position (ms st') = 0 /\
    test_bit 0 st' = false /\
    pcm st' = pcm st /\
    (forall sub' r, 0 <= r -> fst (matrixio_pcm_open st' sub' r) = 0).
Proof.
  intros Hs Hret. unfold matrixio_pcm_open at 1. cbv zeta.
  change (substream (ms (emit _ st))) with (substream (ms st)). rewrite Hs.
  apply Z.ltb_lt in Hret. rewrite Hret.
  eexists. split; [reflexivity|]. unfold test_bit. simpl.
  rewrite Z.clearbit_eq. repeat split.
  intros sub' r Hr. unfold matrixio_pcm_open. simpl.
  destruct (r <? 0) eqn:E; [apply Z.ltb_lt in E; lia|reflexivity].
Qed.

(** X5.  close returns 0 whatever substream it is called for: it clears the
    running bit, frees the interrupt line and unbinds the substream, keeping
    the transfer bit, the position and the runtimes; the top half then
    returns IRQ_NONE and changes nothing. *)
Theorem close_quiesces st sub :
  exists st',
    matrixio_pcm_close st sub = (0, st') /\
    substream (ms st') = None /\
    test_bit 0 st' = false /\
    test_bit 1 st' = test_bit 1 st /\
    position (ms st') = position (ms st) /\
    pcm st' = pcm st /\
    klog st' = klog st ++ [ClearBit 0; FreeIrq (irq (ms st))] /\
    matrixio_pcm_interrupt st' = (IRQ_NONE, st').
Proof.
  unfold matrixio_pcm_close. eexists. split; [reflexivity|].
  unfold test_bit, matrixio_pcm_interrupt. simpl.
  rewrite Z.clearbit_eq, Z.clearbit_neq by lia.
  repeat split. rewrite <- !app_assoc. reflexivity.
Qed.

(** X6.  Open, close, open: from a state with no substream bound, a first
    open succeeds, a second open in between is refused with -EBUSY, close
    succeeds, and the next open succeeds and binds its own substream. *)
Theorem open_close_reopen st sub sub' r1 r2 :
  substream (ms st) = None ->
  0 <= r1 -> 0 <= r2 ->
  let st1 := snd (matrixio_pcm_open st sub r1) in
  let st2 := snd (matrixio_pcm_close st1 sub) in
  let st3 := snd (matrixio_pcm_open st2 sub' r2) in
  fst (matrixio_pcm_open st sub r1) = 0 /\
  fst (matrixio_pcm_open st1 sub' r2) = - EBUSY /\
  fst (matrixio_pcm_close st1 sub) = 0 /\
  fst (matrixio_pcm_open st2 sub' r2) = 0 /\
  substream (ms st3) = Some sub' /\
  position (ms st3) = 0.
Proof.
  intros Hs H1 H2. cbv zeta.
  apply Z.ltb_ge in H1, H2.
  unfold matrixio_pcm_open, matrixio_pcm_close. simpl.
  rewrite Hs, H1. simpl. rewrite H2. simpl. repeat split.
Qed.


(** *** trigger, prepare, hw_free *)

(** X7.  With a substream bound: after trigger(START) the top half wakes the
    thread; after trigger(STOP) it returns IRQ_HANDLED and changes nothing;
    every other command (pause, resume, suspend among them) is refused with
    -EINVAL and changes nothing.  START and STOP return 0 and keep the
    transfer bit, the position and the runtimes. *)
Theorem trigger_gates_top_half st sub :
  substream (ms st) <> None ->
  let started := snd (matrixio_pcm_trigger st sub SNDRV_PCM_TRIGGER_START) in
  let stopped := snd (matrixio_pcm_trigger st sub SNDRV_PCM_TRIGGER_STOP) in
  (fst (matrixio_pcm_trigger st sub SNDRV_PCM_TRIGGER_START) = 0 /\
   fst (matrixio_pcm_interrupt started) = IRQ_WAKE_THREAD) /\
  (fst (matrixio_pcm_trigger st sub SNDRV_PCM_TRIGGER_STOP) = 0 /\
   matrixio_pcm_interrupt stopped = (IRQ_HANDLED, stopped)) /\
  (forall st', st' = started \/ st' = stopped ->
     test_bit 1 st' = test_bit 1 st /\ position (ms st') = position (ms st) /\
     pcm st' = pcm st /\ substream (ms st') = substream (ms st)) /\
  (forall cmd, cmd <> SNDRV_PCM_TRIGGER_START -> cmd <> SNDRV_PCM_TRIGGER_STOP ->
     matrixio_pcm_trigger st sub cmd = (- EINVAL, st)).
Proof.
  intros Hs. cbv zeta. unfold matrixio_pcm_trigger.
  destruct (substream (ms st)) as [sub0|] eqn:Es; [|contradiction].
  repeat split.
  - unfold matrixio_pcm_interrupt, test_bit. simpl. rewrite Es.
    rewrite Z.setbit_eq by lia. reflexivity.
  - unfold matrixio_pcm_interrupt, test_bit. simpl. rewrite Es.
    rewrite Z.clearbit_eq. reflexivity.
  - destruct H as [->| ->]; unfold test_bit; simpl;
      [apply Z.setbit_neq; lia | apply Z.clearbit_neq; lia].
  - destruct H as [->| ->]; reflexivity.
  - destruct H as [->| ->]; reflexivity.
  - destruct H as [->| ->]; simpl; exact Es.
  - intros cmd H1 H0.
    apply Z.eqb_neq in H1, H0. rewrite H1, H0. reflexivity.
Qed.

(** X8.  prepare with the period size at MATRIXIO_PERIOD_FRAMES returns 0
    and sets the position to 0, whatever it was, keeping flags, substream,
    runtimes and trace; with any other period size it returns -EINVAL, logs
    the wanted and the given size and keeps the position. *)
Theorem prepare_resets_position st sub rt :
  pcm st !! sub = Some rt ->
  (period_size rt = MATRIXIO_PERIOD_FRAMES ->
   exists st',
     matrixio_pcm_prepare st sub = Some (0, st') /\
     matrixio_pcm_pointer st' = 0 /\
     flags (ms st') = flags (ms st) /\ substream (ms st') = substream (ms st) /\
     pcm st' = pcm st /\ klog st' = klog st) /\
  (period_size rt <> MATRIXIO_PERIOD_FRAMES ->
   matrixio_pcm_prepare st sub =
     Some (- EINVAL,
           emit [PcmErr (MsgNeedFrames MATRIXIO_PERIOD_FRAMES (period_size rt))] st)).
Proof.
  intros Hrt. unfold matrixio_pcm_prepare. rewrite Hrt. simpl. split.
  - intros ->. rewrite Z.eqb_refl. simpl. eexists. split; [reflexivity|].
    repeat split.
  - intros Hne. apply Z.eqb_neq in Hne. rewrite Hne. reflexivity.
Qed.

(** X9.  hw_free returns 0 and takes the ring away, keeping the geometry and
    the driver state; called while the running bit is set it reports the bug
    and frees the ring all the same.  A bottom half that runs afterwards with
    the running bit still set finds no ring: it logs the missing buffer,
    writes nothing, keeps the position and notifies no period. *)
Theorem hw_free_releases_ring st sub rt :
  pcm st !! sub = Some rt ->
  exists st',
    matrixio_pcm_hw_free st sub = Some (0, st') /\
    ms st' = ms st /\
    pcm st' = <[sub := set_dma None (dma_bytes rt) rt]> (pcm st) /\
    klog st' = klog st ++ (if test_bit 0 st then [SndBug] else []) /\
    (substream (ms st) = Some sub -> test_bit 0 st = true ->
     forall rd, rd_ret rd = 0 ->
       exists st'',
         matrixio_pcm_thread st' rd = Some (IRQ_HANDLED, st'') /\
         pcm st'' = pcm st' /\
         position (ms st'') = position (ms st) /\
         klog st'' = klog st' ++
           [MatrixioRead MATRIXIO_MICARRAY_BASE (snd_pcm_lib_period_bytes rt);
            SmpMb; ClearBit 1; SpinLock; PcmErr MsgDmaBufferMissing; SpinUnlock]).
Proof.
  intros Hrt.
  assert (Hfree : exists st',
    matrixio_pcm_hw_free st sub = Some (0, st') /\
    ms st' = ms st /\
    pcm st' = <[sub := set_dma None (dma_bytes rt) rt]> (pcm st) /\
    klog st' = klog st ++ (if test_bit 0 st then [SndBug] else [])).
  { unfold matrixio_pcm_hw_free.
    destruct (test_bit 0 st); simpl; rewrite Hrt; simpl;
      (eexists; split; [reflexivity|]); simpl; rewrite ?app_nil_r; auto. }
  destruct Hfree as (st' & Hf & Hms & Hpcm & Hlog).
  exists st'. repeat (split; [assumption|]).
  intros Hs Hrun rd Hret.
  assert (Hs' : substream (ms st') = Some sub) by (rewrite Hms; exact Hs).
  assert (Hrt' : pcm st' !! sub = Some (set_dma None (dma_bytes rt) rt))
    by (rewrite Hpcm; apply lookup_insert_eq).
  assert (Hrun' : test_bit 0 st' = true) by (unfold test_bit; rewrite Hms; exact Hrun).
  rewrite (thread_eq_no_ring st' rd sub _ Hs' Hrt' Hret Hrun' eq_refl).
  eexists. split; [reflexivity|]. simpl. rewrite Hms.
  repeat split. rewrite <- !app_assoc. reflexivity.
Qed.

(** *** hw_params and its tables *)

(** X10.  When the rate is in the rate table but the FIR table has no entry
    for it, hw_params has already written the decimation and the gain of
    that rate to the device when it returns -EINVAL: the trace gains these
    two register writes, no FIR upload follows and no ring is allocated. *)
Theorem hw_params_partial_programming st sub p ok :
  snd_pcm_format_width (params_format p) = 16 ->
  In (params_rate p) supported_rates ->
  lookup_fir (params_rate p) FIR_Coeff = None ->
  exists e,
    In e matrixio_params /\ rate e = params_rate p /\
    matrixio_pcm_hw_params st sub p ok =
      Some (- EINVAL,
            emit [RegmapWrite (MATRIXIO_CONF_BASE + 6) (decimation e);
                  RegmapWrite (MATRIXIO_CONF_BASE + 7) (gain e)] st).
Proof.
  intros Hw Hin Hf.
  destruct (lookup_rate_supported _ Hin) as (e & He & Hr).
  exists e. split; [exact (proj1 (lookup_rate_Some _ _ _ He))|]. split; [exact Hr|].
  unfold matrixio_pcm_hw_params.
  rewrite Hw, Z.eqb_refl. cbn [negb]. rewrite (supported_rate_int _ Hin), He, Hf.
  reflexivity.
Qed.

(** X11.  Every rate that hw_params accepts lies within the limits that
    matrixio_pcm_capture_hw takes from the first and the last row of the rate
    table. *)
Theorem accepted_rate_within_limits st sub p ok ret st' :
  0 <= params_rate p < 2 ^ 32 ->
  matrixio_pcm_hw_params st sub p ok = Some (ret, st') ->
  0 <= ret ->
  capture_hw_rate_min <= params_rate p <= capture_hw_rate_max.
Proof.
  intros Hr Hp Hret. unfold matrixio_pcm_hw_params in Hp.
  destruct (negb _); [injection Hp as <- _; unfold EINVAL in Hret; lia|].
  destruct (lookup_rate _ _) as [e|] eqn:E;
    [|injection Hp as <- _; unfold EINVAL in Hret; lia].
  apply lookup_rate_Some in E as [Hin He].
  rewrite to_uint_to_int in He by exact Hr. rewrite <- He.
  unfold capture_hw_rate_min, capture_hw_rate_max. simpl.
  simpl in Hin.
  repeat (destruct Hin as [<-|Hin]; [simpl; lia|]). destruct Hin.
Qed.

(** X12.  The FIR loop stops at the first entry of rate 0: entries behind it
    are never found, a table cut there gives the same answers, and rate 0
    itself is never found. *)
Theorem lookup_fir_sentinel r before e0 behind :
  rate_ e0 = 0 ->
  lookup_fir r (before ++ e0 :: behind) = lookup_fir r before /\
  lookup_fir 0 (before ++ e0 :: behind) = None.
Proof.
  intros H0.
  assert (Hcut : forall r', lookup_fir r' (before ++ e0 :: behind) = lookup_fir r' before).
  { intros r'. induction before as [|a l IH]; simpl.
    - rewrite H0. reflexivity.
    - rewrite IH. reflexivity. }
  split; [apply Hcut|]. rewrite Hcut.
  destruct (lookup_fir 0 before) as [f|] eqn:E; [|reflexivity].
  apply lookup_fir_Some in E as (_ & _ & Hne). contradiction.
Qed.


(** *** The session in its environment *)

(** The substreams that exist are the bound one, and a handler thread that
    waits for the lock works on the bound one. *)
Definition session_inv (s : sys) : Prop :=
  (forall sub, is_Some (pcm (kern s) !! sub) <-> substream (ms (kern s)) = Some sub) /\
  (forall sub, irq_thread s = ThreadAtLock sub -> substream (ms (kern s)) = Some sub).

Lemma dom_insert_some (m : gmap nat snd_pcm_runtime) sub r sub' :
  is_Some (m !! sub) ->
  is_Some (<[sub := r]> m !! sub') <-> is_Some (m !! sub').
Proof.
  intros Hs. rewrite lookup_insert. case_decide; [subst|reflexivity].
  split; eauto.
Qed.

Lemma open_cases st sub r :
  let ret := fst (matrixio_pcm_open st sub r) in
  let st' := snd (matrixio_pcm_open st sub r) in
  pcm st' = pcm st /\
  (substream (ms st) <> None /\ ret = - EBUSY /\ substream (ms st') = substream (ms st) \/
   substream (ms st) = None /\ r < 0 /\ ret = r /\ substream (ms st') = None \/
   substream (ms st) = None /\ 0 <= r /\ ret = 0 /\ substream (ms st') = Some sub).
Proof.
  unfold matrixio_pcm_open. cbv zeta.
  change (substream (ms (emit _ st))) with (substream (ms st)).
  destruct (substream (ms st)) eqn:Es.
  - simpl. split; [reflexivity|]. left. rewrite Es. repeat split. discriminate.
  - destruct (r <? 0) eqn:E; simpl; (split; [reflexivity|]); right.
    + apply Z.ltb_lt in E. left. auto.
    + apply Z.ltb_ge in E. right. auto.
Qed.

Lemma prepare_substream st sub ret st' :
  matrixio_pcm_prepare st sub = Some (ret, st') ->
  substream (ms st') = substream (ms st).
Proof.
  unfold matrixio_pcm_prepare.
  destruct (pcm st !! sub) as [rt|]; simpl; [|discriminate].
  destruct (negb _); intros [= <- <-]; reflexivity.
Qed.

Lemma trigger_substream st sub cmd :
  substream (ms (snd (matrixio_pcm_trigger st sub cmd))) = substream (ms st).
Proof.
  unfold matrixio_pcm_trigger.
  destruct (cmd =? SNDRV_PCM_TRIGGER_START); [reflexivity|].
  destruct (cmd =? SNDRV_PCM_TRIGGER_STOP); reflexivity.
Qed.

Lemma interrupt_substream st :
  substream (ms (snd (matrixio_pcm_interrupt st))) = substream (ms st).
Proof.
  unfold matrixio_pcm_interrupt.
  destruct (substream (ms st)) eqn:Es; [|simpl; exact Es].
  destruct (negb (test_bit 0 st)); [simpl; exact Es|].
  simpl. destruct (Z.testbit (flags (ms st)) 1); simpl; exact Es.
Qed.

Lemma thread_read_substream st rd sub go_on st' :
  thread_read st rd = Some (sub, go_on, st') ->
  substream (ms st') = Some sub.
Proof.
  intros H. pose proof (thread_read_frame _ _ _ _ _ H) as (_ & _ & _ & Hs & [rt Hrt]).
  rewrite (thread_read_eq st rd sub rt Hs Hrt) in H. injection H as _ <-.
  destruct (rd_ret rd =? 0); simpl; exact Hs.
Qed.

(** What a step of the locked section does to the store and the driver
    state. *)
Lemma locked_step s sub s' :
  irq_thread s = ThreadAtLock sub ->
  step s EvThreadLocked = Some s' ->
  irq_thread s' = ThreadIdle /\
  substream (ms (kern s')) = substream (ms (kern s)) /\
  exists rt,
    pcm (kern s) !! sub = Some rt /\
    (pcm (kern s') = pcm (kern s) /\
     position (ms (kern s')) = position (ms (kern s)) \/
     exists area,
       dma_area rt = Some area /\ test_bit 0 (kern s) = true /\
       position (ms (kern s')) =
         advance (to_ulong (position (ms (kern s)))) (buffer_size rt) /\
       pcm (kern s') =
         <[sub := set_dma
                    (Some (snd (interleave (frag_buffer (ms (kern s))) (channels rt) 0
                                  (Z.to_nat MATRIXIO_PERIOD_FRAMES)
                                  (frames_to_bytes rt (to_ulong (position (ms (kern s)))) / 2)
                                  area)))
                    (dma_bytes rt) rt]> (pcm (kern s))).
Proof.
  intros Hpc Hstep. unfold step in Hstep. cbv beta iota zeta in Hstep.
  rewrite Hpc in Hstep.
  destruct (pcm (kern s) !! sub) as [rt|] eqn:Hrt.
  2:{ unfold thread_locked in Hstep. rewrite Hrt in Hstep. discriminate. }
  destruct (test_bit 0 (kern s)) eqn:Hrun.
  2:{ rewrite (thread_locked_stopped _ sub rt Hrt Hrun) in Hstep.
      injection Hstep as <-. simpl. repeat split. exists rt. auto. }
  destruct (dma_area rt) as [area|] eqn:Hd.
  2:{ rewrite (thread_locked_no_ring _ sub rt Hrt Hrun Hd) in Hstep.
      injection Hstep as <-. simpl. repeat split. exists rt. auto. }
  rewrite (thread_locked_running _ sub rt area Hrt Hrun Hd) in Hstep.
  unfold thread_notify in Hstep. simpl in Hstep.
  destruct (substream (ms (kern s))) eqn:Es; simpl in Hstep; [|discriminate].
  injection Hstep as <-. simpl. repeat split; [exact Es|].
  exists rt. split; [reflexivity|]. right. exists area. auto.
Qed.

Lemma step_session_inv s e s' :
  session_inv s -> step s e = Some s' -> session_inv s'.
Proof.
  intros [Hdom Hpc] Hstep. unfold session_inv.
  destruct e.
  - unfold step in Hstep. cbv beta iota zeta in Hstep.
    destruct (pcm (kern s) !! sub) eqn:Hnone; [discriminate|].
    pose proof (open_cases (with_runtime sub runtime0 (kern s)) sub irq_ret) as [Hp Hc].
    destruct (matrixio_pcm_open _ _ _) as [ret st1]. simpl in Hp, Hc.
    injection Hstep as <-. simpl.
    assert (Hunbound : substream (ms (kern s)) <> Some sub).
    { intros Hb. apply Hdom in Hb. rewrite Hnone in Hb. destruct Hb. discriminate. }
    destruct Hc as [(Hb & -> & Hs')|[(Hb & Hr & -> & Hs')|(Hb & Hr & -> & Hs')]].
    + simpl. rewrite Hp, Hs'. split; [|exact Hpc].
      intros sub'. rewrite lookup_delete. case_decide; subst.
      * split; [intros [? ?]; discriminate|]. intros Hx. contradiction.
      * rewrite lookup_insert_ne by congruence. apply Hdom.
    + apply Z.ltb_lt in Hr. rewrite Hr. simpl. rewrite Hp, Hs'. split.
      * intros sub'. rewrite lookup_delete. case_decide; subst.
        -- split; [intros [? ?]; discriminate|discriminate].
        -- rewrite lookup_insert_ne by congruence. rewrite Hdom, Hb. reflexivity.
      * intros sub' Hx. apply Hpc in Hx. congruence.
    + simpl. rewrite Hp, Hs'. split.
      * intros sub'. rewrite lookup_insert. case_decide; subst.
        -- split; eauto.
        -- rewrite Hdom, Hb. split; [discriminate|congruence].
      * intros sub' Hx. apply Hpc in Hx. congruence.
  - unfold step in Hstep. cbv beta iota zeta in Hstep.
    destruct (pcm (kern s) !! sub) eqn:Hsome; [|discriminate].
    destruct (irq_thread s); [|discriminate].
    injection Hstep as <-. simpl. split; [|discriminate].
    intros sub'. rewrite lookup_delete. case_decide; subst.
    + split; [intros [? ?]; discriminate|discriminate].
    + split; [|discriminate]. intros Hx. apply Hdom in Hx.
      assert (Hb : substream (ms (kern s)) = Some sub) by (apply Hdom; eauto).
      congruence.
  - unfold step in Hstep. cbv beta iota zeta in Hstep.
    destruct (matrixio_pcm_hw_params _ _ _ _) as [[ret st1]|] eqn:E; [|discriminate].
    apply hw_params_frame in E as [Hms Hcases].
    assert (Hdom1 : forall sub', is_Some (pcm st1 !! sub') <-> substream (ms st1) = Some sub').
    { intros sub'. rewrite Hms.
      destruct Hcases as [[-> _]|(rt & Hrt & _ & ->)]; [apply Hdom|].
      rewrite dom_insert_some by eauto. apply Hdom. }
    destruct (ret <? 0).
    + injection Hstep as <-. simpl. rewrite Hms in *. auto.
    + destruct (pcm st1 !! sub) as [rt1|] eqn:Hrt1; [|discriminate].
      injection Hstep as <-. simpl. rewrite Hms in *. split; [|exact Hpc].
      intros sub'. rewrite dom_insert_some by eauto. apply Hdom1.
  - unfold step in Hstep. cbv beta iota zeta in Hstep.
    destruct (matrixio_pcm_hw_free _ _) as [[ret st1]|] eqn:E; [|discriminate].
    apply hw_free_frame in E as (Hms & rt & Hrt & Hp). injection Hstep as <-. simpl.
    rewrite Hms, Hp. split; [|exact Hpc].
    intros sub'. rewrite dom_insert_some by eauto. apply Hdom.
  - unfold step in Hstep. cbv beta iota zeta in Hstep.
    destruct (matrixio_pcm_prepare _ _) as [[ret st1]|] eqn:E; [|discriminate].
    pose proof (prepare_substream _ _ _ _ E) as Hs'.
    apply prepare_frame in E as (Hp & _). injection Hstep as <-. simpl.
    rewrite Hp, Hs'. auto.
  - unfold step in Hstep. cbv beta iota zeta in Hstep.
    destruct (pcm (kern s) !! sub); [|discriminate].
    pose proof (trigger_frame (kern s) sub cmd) as (Hp & _).
    pose proof (trigger_substream (kern s) sub cmd) as Hs'.
    destruct (matrixio_pcm_trigger _ _ _) as [ret st1]. simpl in Hp, Hs', Hstep.
    injection Hstep as <-. simpl. rewrite Hp, Hs'. auto.
  - unfold step in Hstep. cbv beta iota zeta in Hstep.
    destruct (pcm (kern s) !! sub); [|discriminate]. injection Hstep as <-. auto.
  - unfold step in Hstep. cbv beta iota zeta in Hstep.
    pose proof (interrupt_frame (kern s)) as (Hp & _).
    pose proof (interrupt_substream (kern s)) as Hs'. simpl in Hp.
    injection Hstep as <-. simpl. rewrite Hp, Hs'. auto.
  - unfold step in Hstep. cbv beta iota zeta in Hstep.
    destruct (irq_thread s); [|discriminate].
    destruct (thread_read _ _) as [[[sub go_on] st1]|] eqn:E; [|discriminate].
    pose proof (thread_read_substream _ _ _ _ _ E) as Hs'.
    apply thread_read_frame in E as (Hp & _ & _ & Hs & _).
    injection Hstep as <-. simpl. rewrite Hp, Hs'. rewrite Hs in Hdom. split; [exact Hdom|].
    intros sub'. destruct go_on; [|discriminate]. intros [= <-]. reflexivity.
  - destruct (irq_thread s) as [|sub] eqn:Epc.
    { unfold step in Hstep. cbv beta iota zeta in Hstep. rewrite Epc in Hstep. discriminate. }
    destruct (locked_step s sub s' Epc Hstep) as (Hidle & Hs' & rt & Hrt & Hc).
    rewrite Hs'. split; [|rewrite Hidle; discriminate].
    intros sub'. destruct Hc as [[-> _]|(area & _ & _ & _ & ->)]; [apply Hdom|].
    rewrite dom_insert_some by eauto. apply Hdom.
Qed.

Lemma run_session_inv es : forall s s',
  session_inv s -> run s es = Some s' -> session_inv s'.
Proof.
  induction es as [|e es IH]; intros s s' Hinv Hrun; simpl in Hrun.
  - injection Hrun as <-. exact Hinv.
  - destruct (step s e) as [s1|] eqn:E; [|discriminate].
    exact (IH s1 s' (step_session_inv s e s1 Hinv E) Hrun).
Qed.

Lemma probe_session_inv line frag : session_inv (probe_state line frag).
Proof.
  split; simpl.
  - intros sub. rewrite lookup_empty. split; [intros [? ?]|]; discriminate.
  - discriminate.
Qed.

(** X13.  Whatever callbacks, interrupts and handler steps have run since
    probe, the substreams that are open are exactly the one bound in [ms]:
    at most one substream is open at any time, and an open for another one
    is refused with -EBUSY as long as it is. *)
Theorem one_open_substream line frag es s :
  run (probe_state line frag) es = Some s ->
  (forall sub, is_Some (pcm (kern s) !! sub) <-> substream (ms (kern s)) = Some sub) /\
  (forall sub sub' r, is_Some (pcm (kern s) !! sub) ->
     fst (matrixio_pcm_open (kern s) sub' r) = - EBUSY).
Proof.
  intros Hrun.
  destruct (run_session_inv es _ s (probe_session_inv line frag) Hrun) as [Hdom _].
  split; [exact Hdom|].
  intros sub sub' r Hsome. apply Hdom in Hsome.
  pose proof (open_cases (kern s) sub' r) as [_ Hc]. simpl in Hc.
  destruct Hc as [(_ & -> & _)|[(Hn & _)|(Hn & _)]]; [reflexivity|congruence..].
Qed.



(** *** Whole periods *)

Lemma advance_aligned k n :
  0 < MATRIXIO_PERIOD_FRAMES -> n * MATRIXIO_PERIOD_FRAMES < 2 ^ 31 ->
  0 <= k < n ->
  advance (to_ulong (k * MATRIXIO_PERIOD_FRAMES)) (n * MATRIXIO_PERIOD_FRAMES)
  = (if k + 1 <? n then k + 1 else 0) * MATRIXIO_PERIOD_FRAMES.
Proof.
  intros HF HB Hk. unfold advance.
  rewrite (to_ulong_small (k * MATRIXIO_PERIOD_FRAMES)) by nia.
  rewrite (to_ulong_small (k * MATRIXIO_PERIOD_FRAMES + MATRIXIO_PERIOD_FRAMES)) by nia.
  destruct (k + 1 <? n) eqn:E.
  - apply Z.ltb_lt in E.
    destruct (_ <=? _) eqn:E'; [apply Z.leb_le in E'; nia|].
    rewrite to_int_small by nia. ring.
  - apply Z.ltb_ge in E. assert (k + 1 = n) by lia. subst n.
    destruct (_ <=? _) eqn:E'; [|apply Z.leb_gt in E'; nia].
    replace (k * MATRIXIO_PERIOD_FRAMES + MATRIXIO_PERIOD_FRAMES
             - (k + 1) * MATRIXIO_PERIOD_FRAMES) with 0 by ring.
    rewrite to_ulong_small, to_int_small by lia. ring.
Qed.

(** The position is a whole number of periods inside the buffer. *)
Definition aligned_inv (n : Z) (s : sys) : Prop :=
  position_inv (n * MATRIXIO_PERIOD_FRAMES) s /\
  exists k, 0 <= k < n /\ position (ms (kern s)) = k * MATRIXIO_PERIOD_FRAMES.

Lemma step_aligned_inv n s e s' :
  1 <= n -> 0 < MATRIXIO_PERIOD_FRAMES -> n * MATRIXIO_PERIOD_FRAMES < 2 ^ 31 ->
  session_buffer (n * MATRIXIO_PERIOD_FRAMES) e ->
  aligned_inv n s ->
  step s e = Some s' ->
  aligned_inv n s'.
Proof.
  intros Hn HF HB He [Hinv (k & Hk & Hpos)] Hstep.
  assert (HFB : 0 < MATRIXIO_PERIOD_FRAMES <= n * MATRIXIO_PERIOD_FRAMES) by nia.
  split; [exact (step_position_inv _ s e s' HFB HB He Hinv Hstep)|].
  assert (Hzero : exists k0, 0 <= k0 < n /\ 0 = k0 * MATRIXIO_PERIOD_FRAMES)
    by (exists 0; lia).
  assert (Hsame : exists k0, 0 <= k0 < n /\ position (ms (kern s)) = k0 * MATRIXIO_PERIOD_FRAMES)
    by eauto.
  destruct e.
  - unfold step in Hstep. cbv beta iota zeta in Hstep.
    destruct (pcm (kern s) !! sub); [discriminate|].
    pose proof (open_frame (with_runtime sub runtime0 (kern s)) sub irq_ret) as (_ & Hq & _).
    destruct (matrixio_pcm_open _ _ _) as [ret st1]. simpl in Hq.
    injection Hstep as <-. simpl.
    destruct (ret <? 0); simpl; destruct Hq as [-> | ->]; assumption.
  - unfold step in Hstep. cbv beta iota zeta in Hstep.
    destruct (pcm (kern s) !! sub); [|discriminate].
    destruct (irq_thread s); [|discriminate].
    injection Hstep as <-. exact Hsame.
  - unfold step in Hstep. cbv beta iota zeta in Hstep.
    destruct (matrixio_pcm_hw_params _ _ _ _) as [[ret st1]|] eqn:E; [|discriminate].
    apply hw_params_frame in E as [Hms _].
    destruct (ret <? 0); [injection Hstep as <-; simpl; rewrite Hms; exact Hsame|].
    destruct (pcm st1 !! sub); [|discriminate].
    injection Hstep as <-. simpl. rewrite Hms. exact Hsame.
  - unfold step in Hstep. cbv beta iota zeta in Hstep.
    destruct (matrixio_pcm_hw_free _ _) as [[ret st1]|] eqn:E; [|discriminate].
    apply hw_free_frame in E as (Hms & _). injection Hstep as <-. simpl.
    rewrite Hms. exact Hsame.
  - unfold step in Hstep. cbv beta iota zeta in Hstep.
    destruct (matrixio_pcm_prepare _ _) as [[ret st1]|] eqn:E; [|discriminate].
    apply prepare_frame in E as (_ & Hq & _). injection Hstep as <-. simpl.
    destruct Hq as [-> | ->]; assumption.
  - unfold step in Hstep. cbv beta iota zeta in Hstep.
    destruct (pcm (kern s) !! sub); [|discriminate].
    pose proof (trigger_frame (kern s) sub cmd) as (_ & Hq & _).
    destruct (matrixio_pcm_trigger _ _ _) as [ret st1]. simpl in Hq, Hstep.
    injection Hstep as <-. simpl. rewrite Hq. exact Hsame.
  - unfold step in Hstep. cbv beta iota zeta in Hstep.
    destruct (pcm (kern s) !! sub); [|discriminate]. injection Hstep as <-. exact Hsame.
  - unfold step in Hstep. cbv beta iota zeta in Hstep.
    pose proof (interrupt_frame (kern s)) as (_ & Hq & _). simpl in Hq.
    injection Hstep as <-. simpl. rewrite Hq. exact Hsame.
  - unfold step in Hstep. cbv beta iota zeta in Hstep.
    destruct (irq_thread s); [|discriminate].
    destruct (thread_read _ _) as [[[sub go_on] st1]|] eqn:E; [|discriminate].
    apply thread_read_frame in E as (_ & Hq & _).
    injection Hstep as <-. simpl. rewrite Hq. exact Hsame.
  - destruct (irq_thread s) as [|sub] eqn:Epc.
    { unfold step in Hstep. cbv beta iota zeta in Hstep. rewrite Epc in Hstep. discriminate. }
    destruct (locked_step s sub s' Epc Hstep) as (_ & _ & rt & Hrt & Hc).
    destruct Hc as [[_ ->]|(area & Hd & _ & -> & _)]; [exact Hsame|].
    assert (HBrt : buffer_size rt = n * MATRIXIO_PERIOD_FRAMES)
      by (apply (proj2 Hinv sub rt Hrt); congruence).
    rewrite HBrt, Hpos, advance_aligned by assumption.
    eexists. split; [|reflexivity]. destruct (k + 1 <? n) eqn:E; [apply Z.ltb_lt in E|]; lia.
Qed.

Lemma run_aligned_inv n es : forall s s',
  1 <= n -> 0 < MATRIXIO_PERIOD_FRAMES -> n * MATRIXIO_PERIOD_FRAMES < 2 ^ 31 ->
  Forall (session_buffer (n * MATRIXIO_PERIOD_FRAMES)) es ->
  aligned_inv n s ->
  run s es = Some s' ->
  aligned_inv n s'.
Proof.
  induction es as [|e es IH]; intros s s' Hn HF HB Hes Hinv Hrun; simpl in Hrun.
  - injection Hrun as <-. exact Hinv.
  - inversion Hes as [|? ? He Hes']; subst.
    destruct (step s e) as [s1|] eqn:E; [|discriminate].
    apply (IH s1 s' Hn HF HB Hes'); [|exact Hrun].
    exact (step_aligned_inv n s e s1 Hn HF HB He Hinv E).
Qed.

Lemma probe_aligned_inv n line frag :
  1 <= n -> 0 < MATRIXIO_PERIOD_FRAMES -> aligned_inv n (probe_state line frag).
Proof.
  intros Hn HF. split; [split|]; simpl.
  - nia.
  - intros sub rt. rewrite lookup_empty. discriminate.
  - exists 0. lia.
Qed.

(** X15.  In a session whose buffer is [n] periods long, whatever has run
    since probe, the position is a whole number of periods: it is
    [k * MATRIXIO_PERIOD_FRAMES] for some [k] from 0 to [n - 1], so that the
    period that starts there ends inside the buffer. *)
Theorem position_on_period_boundary n line frag es s :
  1 <= n ->
  0 < MATRIXIO_PERIOD_FRAMES ->
  n * MATRIXIO_PERIOD_FRAMES < 2 ^ 31 ->
  Forall (session_buffer (n * MATRIXIO_PERIOD_FRAMES)) es ->
  run (probe_state line frag) es = Some s ->
  (exists k, 0 <= k < n /\ matrixio_pcm_pointer (kern s) = k * MATRIXIO_PERIOD_FRAMES) /\
  matrixio_pcm_pointer (kern s) + MATRIXIO_PERIOD_FRAMES <= n * MATRIXIO_PERIOD_FRAMES.
Proof.
  intros Hn HF HB Hes Hrun.
  destruct (run_aligned_inv n es _ s Hn HF HB Hes (probe_aligned_inv n line frag Hn HF) Hrun)
    as [_ (k & Hk & Hpos)].
  unfold matrixio_pcm_pointer, atomic_read_position. rewrite Hpos.
  split; [eauto|]. nia.
Qed.

(** X16.  In such a session the locked section of the bottom half never
    writes outside the ring: a step of it changes no word of any ring but
    those of frames 0 to buffer_size - 1. *)
Theorem bottom_half_stays_in_ring n line frag es s s' sub rt area rt' area' a :
  1 <= n ->
  0 < MATRIXIO_PERIOD_FRAMES ->
  n * MATRIXIO_PERIOD_FRAMES < 2 ^ 31 ->
  Forall (session_buffer (n * MATRIXIO_PERIOD_FRAMES)) es ->
  run (probe_state line frag) es = Some s ->
  step s EvThreadLocked = Some s' ->
  pcm (kern s) !! sub = Some rt -> dma_area rt = Some area ->
  pcm (kern s') !! sub = Some rt' -> dma_area rt' = Some area' ->
  a < 0 \/ buffer_size rt * channels rt <= a ->
  area' !! a = area !! a.
Proof.
  intros Hn HF HB Hes Hrun Hstep Hrt Hd Hrt' Hd' Ha.
  destruct (run_aligned_inv n es _ s Hn HF HB Hes (probe_aligned_inv n line frag Hn HF) Hrun)
    as [[_ Hrings] (k & Hk & Hpos)].
  destruct (irq_thread s) as [|sub0] eqn:Epc.
  { unfold step in Hstep. cbv beta iota zeta in Hstep. rewrite Epc in Hstep. discriminate. }
  destruct (locked_step s sub0 s' Epc Hstep) as (_ & _ & rt0 & Hrt0 & Hc).
  destruct Hc as [[Hp _]|(area0 & Hd0 & _ & _ & Hp)].
  { rewrite Hp in Hrt'. congruence. }
  rewrite Hp in Hrt'. rewrite lookup_insert in Hrt'. case_decide as Hsub.
  2:{ congruence. }
  subst sub0. assert (rt0 = rt) by congruence. subst rt0.
  assert (area0 = area) by congruence. subst area0.
  injection Hrt' as <-. simpl in Hd'. injection Hd' as <-.
  assert (HBrt : buffer_size rt = n * MATRIXIO_PERIOD_FRAMES)
    by (apply (Hrings sub rt Hrt); congruence).
  rewrite Hpos, to_ulong_small, frames_to_words by nia.
  apply interleave_other. rewrite HBrt in Ha.
  destruct (Z_lt_le_dec (channels rt) 0) as [Hneg|Hnn].
  - assert (Hz : Z.to_nat (channels rt) = 0%nat) by lia. rewrite Hz. lia.
  - rewrite !Z2Nat.id by lia. nia.
Qed.

End Driver.

(** * Properties of the work-queue driver (src/matrixio-pcm.c) *)

Section PcmFacts.

Variable BITS_PER_LONG : Z.
Hypothesis BITS_PER_LONG_ge : 32 <= BITS_PER_LONG.

Lemma store_words_other ws : forall at_word (buf : gmap Z Z) a,
  a < at_word \/ at_word + Z.of_nat (length ws) <= a ->
  Pcm.store_words at_word ws buf !! a = buf !! a.
Proof.
  induction ws as [|w ws IH]; intros at_word buf a Ha; simpl; [reflexivity|].
  simpl in Ha. rewrite IH by lia. apply lookup_insert_ne. lia.
Qed.

Lemma store_words_at ws : forall at_word (buf : gmap Z Z) i w,
  ws !! i = Some w ->
  Pcm.store_words at_word ws buf !! (at_word + Z.of_nat i) = Some w.
Proof.
  induction ws as [|w0 ws IH]; intros at_word buf i w Hi; [discriminate|].
  destruct i as [|i]; cbn [Pcm.store_words].
  - injection Hi as ->. rewrite store_words_other by lia.
    replace (at_word + Z.of_nat 0) with at_word by lia. apply lookup_insert_eq.
  - replace (at_word + Z.of_nat (S i)) with (at_word + 1 + Z.of_nat i) by lia.
    apply IH. exact Hi.
Qed.

Lemma load_store_words ws at_word (buf : gmap Z Z) :
  Pcm.load_words at_word (length ws) (Pcm.store_words at_word ws buf) = map Some ws.
Proof.
  unfold Pcm.load_words. apply list_eq. intros i.
  rewrite !list_lookup_fmap.
  destruct (ws !! i) as [w|] eqn:Hi; simpl.
  - assert (Hlt : (i < length ws)%nat) by (apply lookup_lt_is_Some; eauto).
    rewrite lookup_seq_lt by exact Hlt. simpl.
    rewrite (store_words_at ws at_word buf i w Hi). reflexivity.
  - apply lookup_ge_None in Hi. rewrite lookup_seq_ge by exact Hi. reflexivity.
Qed.

(** X17.  The pointer callback of the work-queue driver is not read-only: a
    position at or beyond buffer_size is set back to 0 (not reduced modulo
    buffer_size), a position below it is kept.  With a positive buffer_size
    the value returned is below buffer_size, it is the position left behind,
    and a second call returns it again. *)
Theorem pcm_pointer_clamps (st : Pcm.state) rt :
  0 <= Pcm.position st ->
  0 < buffer_size rt ->
  let p := fst (Pcm.matrixio_pcm_pointer st rt) in
  let st' := snd (Pcm.matrixio_pcm_pointer st rt) in
  0 <= p < buffer_size rt /\
  Pcm.position st' = p /\
  (Pcm.position st < buffer_size rt -> p = Pcm.position st) /\
  (buffer_size rt <= Pcm.position st -> p = 0) /\
  Pcm.matrixio_buf st' = Pcm.matrixio_buf st /\
  fst (Pcm.matrixio_pcm_pointer st' rt) = p.
Proof.
  intros Hp HB. cbv zeta. unfold Pcm.matrixio_pcm_pointer. simpl.
  destruct (Pcm.position st <? buffer_size rt) eqn:E.
  - apply Z.ltb_lt in E. rewrite (proj2 (Z.ltb_lt _ _) E). repeat split; lia.
  - apply Z.ltb_ge in E. rewrite (proj2 (Z.ltb_lt 0 _) HB). repeat split; lia.
Qed.

(** X18.  With a buffer of [m] blocks of 256 frames and the position on a
    block boundary [k * 256], after any number of periods, each one the work
    item followed by the pointer callback, the position is
    [((k + periods) mod m) * 256]: it goes round the buffer block by block. *)
Theorem pcm_capture_goes_round blocks : forall (st : Pcm.state) rt m k,
  1 <= m ->
  buffer_size rt = m * 256 ->
  buffer_size rt < 2 ^ 32 ->
  0 <= k < m ->
  Pcm.position st = k * 256 ->
  Pcm.position (Pcm.capture_periods BITS_PER_LONG st rt blocks)
  = ((k + Z.of_nat (length blocks)) mod m) * 256.
Proof.
  induction blocks as [|words blocks IH]; intros st rt m k Hm HB Hlt Hk Hpos.
  - simpl. rewrite Z.add_0_r, Z.mod_small by lia. exact Hpos.
  - assert (Hpow : 2 ^ 32 <= 2 ^ BITS_PER_LONG) by (apply Z.pow_le_mono_r; lia).
    cbn [Pcm.capture_periods].
    set (st1 := snd (Pcm.matrixio_pcm_pointer
                       (Pcm.matrixio_pcm_capture_work BITS_PER_LONG st words) rt)).
    assert (H1 : Pcm.position st1 = ((k + 1) mod m) * 256).
    { unfold st1, Pcm.matrixio_pcm_pointer, Pcm.matrixio_pcm_capture_work. simpl.
      rewrite Hpos, HB. rewrite (Z.mod_small (k * 256 + 256)) by lia.
      destruct (k * 256 + 256 <? m * 256) eqn:E.
      - apply Z.ltb_lt in E. rewrite Z.mod_small by lia. ring.
      - apply Z.ltb_ge in E. assert (k + 1 = m) by lia.
        replace (k + 1) with m by lia. rewrite Z.mod_same by lia. reflexivity. }
    rewrite (IH st1 rt m ((k + 1) mod m) Hm HB Hlt); [| |exact H1].
    + rewrite Z.add_mod_idemp_l by lia. do 2 f_equal.
      change (length (words :: blocks)) with (S (length blocks)). lia.
    + apply Z.mod_pos_bound. lia.
Qed.

(** X19.  What the work item stores can be copied out: after a work item
    that stored [words] at the position, copy from that position for as many
    frames hands exactly these words to copy_to_user, whatever the channel
    argument (copy does not look at it), and returns what copy_to_user
    returns. *)
Theorem pcm_work_copy_round_trip (st : Pcm.state) words channel not_copied :
  let st1 := Pcm.matrixio_pcm_capture_work BITS_PER_LONG st words in
  let n := Z.of_nat (length words) in
  Pcm.matrixio_pcm_copy st1 channel (Pcm.position st) n not_copied =
    (not_copied,
     Pcm.emit [Pcm.Printk; Pcm.CopyToUser (map Some words) (n * 2)] st1).
Proof.
  cbv zeta. unfold Pcm.matrixio_pcm_copy. f_equal. f_equal.
  rewrite Nat2Z.id. simpl. rewrite load_store_words. reflexivity.
Qed.

(** X20.  The interrupt handler of the work-queue driver returns IRQ_NONE
    and changes nothing while no substream is open.  With one open it queues
    the work item at every interrupt, started or not, and initialises the
    work item at the first interrupt only. *)
Theorem pcm_interrupt_inits_once (st : Pcm.state) :
  (Pcm.capture_substream st = None ->
   Pcm.matrixio_pcm_interrupt st = (IRQ_NONE, st)) /\
  (Pcm.capture_substream st <> None ->
   let st1 := snd (Pcm.matrixio_pcm_interrupt st) in
   let st2 := snd (Pcm.matrixio_pcm_interrupt st1) in
   fst (Pcm.matrixio_pcm_interrupt st) = IRQ_HANDLED /\
   fst (Pcm.matrixio_pcm_interrupt st1) = IRQ_HANDLED /\
   Pcm.initialized st2 = true /\
   Pcm.log st2 = Pcm.log st ++
     (if Pcm.initialized st then [] else [Pcm.InitWork]) ++
     [Pcm.QueueWork; Pcm.QueueWork]).
Proof.
  unfold Pcm.matrixio_pcm_interrupt. split.
  - intros ->. reflexivity.
  - intros Hs. destruct (Pcm.capture_substream st) eqn:Es; [|contradiction].
    destruct (Pcm.initialized st) eqn:Ei; simpl; rewrite Es, ?Ei; simpl;
      repeat split; rewrite <- ?app_assoc; try exact Ei; reflexivity.
Qed.

End PcmFacts.

(** * Concrete runs

    The board of these runs: periods of 4 frames, configuration registers at
    0, the microphone array at 0x2000, two-word FIR vectors, a 32-bit
    [unsigned long]. *)

(** A request with another period size than PERIOD_FRAMES, a big-endian
    format, and a request the allocator cannot serve: hw_params accepts the
    periods of 4 and of 5 frames alike and the format S16_BE, and answers the
    failed allocation with -ENOMEM. *)
Lemma hw_params_claim_fails :
  (exists st, matrixio_pcm_hw_params 0 8192 2 sample_fir sample_open 0
                (sample_params SNDRV_PCM_FORMAT_S16_LE 48000 4) true = Some (1, st)) /\
  (exists st, matrixio_pcm_hw_params 0 8192 2 sample_fir sample_open 0
                (sample_params SNDRV_PCM_FORMAT_S16_LE 48000 5) true = Some (1, st)) /\
  (exists st, matrixio_pcm_hw_params 0 8192 2 sample_fir sample_open 0
                (sample_params SNDRV_PCM_FORMAT_S16_BE 48000 4) true = Some (1, st)) /\
  (exists st, matrixio_pcm_hw_params 0 8192 2 sample_fir sample_open 0
                (sample_params SNDRV_PCM_FORMAT_S16_LE 48000 4) false = Some (-12, st)).
Proof.
  repeat split; eexists; vm_compute; reflexivity.
Qed.

Lemma hw_params_success_iff_witness :
  exists ret st',
    matrixio_pcm_hw_params 0 8192 2 sample_fir sample_open 0
      (sample_params SNDRV_PCM_FORMAT_S16_LE 48000 5) true = Some (ret, st') /\
    0 <= ret.
Proof.
  destruct (hw_params_success_iff 4 0 8192 2 sample_fir sample_open 0
              (sample_params SNDRV_PCM_FORMAT_S16_LE 48000 5) true runtime0)
    as [(ret & st' & Hrun & Hiff & _) _].
  - reflexivity.
  - simpl. lia.
  - exists ret, st'. split; [exact Hrun|]. apply Hiff. repeat split.
    + simpl. tauto.
    + eexists. vm_compute. reflexivity.
    + vm_compute. discriminate.
Defined.

Lemma hw_params_programs_rate_witness :
  exists st' f,
    matrixio_pcm_hw_params 0 8192 2 sample_fir sample_open 0
      (sample_params SNDRV_PCM_FORMAT_S16_LE 48000 4) true = Some (1, st') /\
    coeff_ f = [48; 1] /\
    klog st' = [RegmapWrite 6 61; RegmapWrite 7 7; MatrixioWrite 8192 2 (coeff_ f)].
Proof.
  assert (Hrun : exists st',
    matrixio_pcm_hw_params 0 8192 2 sample_fir sample_open 0
      (sample_params SNDRV_PCM_FORMAT_S16_LE 48000 4) true = Some (1, st'))
    by (eexists; vm_compute; reflexivity).
  destruct Hrun as [st' Hrun].
  destruct (hw_params_programs_rate 0 8192 2 sample_fir sample_open 0
              (sample_params SNDRV_PCM_FORMAT_S16_LE 48000 4) true 1 st' 48000 61 7)
    as (f & Hf & _ & _ & Hlog).
  - simpl. tauto.
  - reflexivity.
  - exact Hrun.
  - lia.
  - exists st', f. split; [exact Hrun|]. split; [|exact Hlog].
    vm_compute in Hf. injection Hf as <-. reflexivity.
Defined.

Lemma hw_params_unsupported_rate_witness :
  matrixio_pcm_hw_params 0 8192 2 sample_fir sample_open 0
    (sample_params SNDRV_PCM_FORMAT_S16_LE 11025 4) true = Some (- EINVAL, sample_open).
Proof.
  apply hw_params_unsupported_rate.
  - simpl. lia.
  - simpl. intuition lia.
Defined.

Lemma interrupt_top_half_witness :
  exists st',
    matrixio_pcm_interrupt sample_running = (IRQ_WAKE_THREAD, st') /\
    klog st' = [TestAndSetBit 1] /\
    exists st'',
      matrixio_pcm_interrupt st' = (IRQ_WAKE_THREAD, st'') /\
      klog st'' = [TestAndSetBit 1; TestAndSetBit 1; PcmWarn MsgPossibleOverflow].
Proof.
  destruct (interrupt_top_half sample_running) as (_ & _ & H).
  destruct H as (st' & Hrun & _ & H1 & H0 & Hs & _ & _ & Hlog);
    [discriminate | reflexivity |].
  exists st'. split; [exact Hrun|]. split; [exact Hlog|].
  destruct (interrupt_top_half st') as (_ & _ & H).
  destruct H as (st'' & Hrun' & _ & _ & _ & _ & _ & _ & Hlog');
    [rewrite Hs; discriminate | exact H0 |].
  exists st''. split; [exact Hrun'|]. rewrite Hlog', Hlog, H1. reflexivity.
Defined.

Lemma open_busy_witness :
  exists st',
    matrixio_pcm_open 4 sample_running 1 0 = (- EBUSY, st') /\
    ms st' = ms sample_running /\ pcm st' = pcm sample_running.
Proof.
  apply open_busy. discriminate.
Defined.

Lemma thread_bus_error_witness :
  exists st',
    matrixio_pcm_thread 4 8192 32 sample_running sample_failed_read = Some (IRQ_HANDLED, st') /\
    klog st' = [MatrixioRead 8192 16; SmpMb; ClearBit 1; PcmErr (MsgSpiReadFailed (-5))] /\
    test_bit 0 st' = true /\ position (ms st') = 0.
Proof.
  destruct (thread_bus_error 4 8192 32 sample_running sample_failed_read 0 sample_runtime)
    as (st' & Hrun & Hlog & _ & H0 & _ & Hpos & _).
  - reflexivity.
  - reflexivity.
  - discriminate.
  - exists st'. repeat split; assumption.
Defined.

Lemma thread_deinterleaves_witness :
  exists st' rt' area',
    matrixio_pcm_thread 4 8192 32 sample_running sample_read = Some (IRQ_HANDLED, st') /\
    pcm st' !! 0%nat = Some rt' /\ dma_area rt' = Some area' /\
    area' !! 0 = Some 0 /\ area' !! 1 = Some 1000 /\
    area' !! 2 = Some 1 /\ area' !! 3 = Some 1001 /\
    area' !! 6 = Some 3 /\ area' !! 7 = Some 1003 /\ area' !! 8 = None.
Proof.
  destruct (thread_deinterleaves 4 8192 32 ltac:(lia) sample_running sample_read 0
              sample_runtime ∅)
    as (st' & rt' & area' & Hrun & Hrt & Hd & Hw & Ho).
  - reflexivity.
  - reflexivity.
  - reflexivity.
  - reflexivity.
  - reflexivity.
  - simpl. lia.
  - simpl. lia.
  - exists st', rt', area'. repeat split; try assumption.
    + destruct (Hw 0 0) as (v & Hv & Ha); [simpl; lia..|].
      injection Hv as <-. exact Ha.
    + destruct (Hw 0 1) as (v & Hv & Ha); [simpl; lia..|].
      injection Hv as <-. exact Ha.
    + destruct (Hw 1 0) as (v & Hv & Ha); [simpl; lia..|].
      injection Hv as <-. exact Ha.
    + destruct (Hw 1 1) as (v & Hv & Ha); [simpl; lia..|].
      injection Hv as <-. exact Ha.
    + destruct (Hw 3 0) as (v & Hv & Ha); [simpl; lia..|].
      injection Hv as <-. exact Ha.
    + destruct (Hw 3 1) as (v & Hv & Ha); [simpl; lia..|].
      injection Hv as <-. exact Ha.
    + rewrite Ho; [reflexivity|]. simpl. lia.
Defined.

Lemma periods_advance_position_witness :
  exists st',
    run_periods 4 8192 32 sample_running (repeat sample_read 5) = Some st' /\
    position (ms st') = 4.
Proof.
  destruct (periods_advance_position 4 8192 32 ltac:(lia) (repeat sample_read 5)
              sample_running 0 sample_runtime ∅)
    as (st' & Hrun & _ & H5).
  - reflexivity.
  - reflexivity.
  - reflexivity.
  - reflexivity.
  - repeat constructor.
  - simpl. lia.
  - simpl. lia.
  - simpl. lia.
  - exists st'. split; [exact Hrun|]. apply H5; reflexivity.
Defined.

Lemma stop_fences_bottom_half_witness :
  exists s0 s1 s2,
    step 4 0 8192 2 sample_fir 32 sample_racing (EvTrigger 0 SNDRV_PCM_TRIGGER_STOP) = Some s0 /\
    run 4 0 8192 2 sample_fir 32 s0 [EvInterrupt; EvPointer 0] = Some s1 /\
    step 4 0 8192 2 sample_fir 32 s1 EvThreadLocked = Some s2 /\
    pcm (kern s2) = pcm (kern s1) /\
    position (ms (kern s2)) = position (ms (kern s1)).
Proof.
  assert (H0 : exists s0,
    step 4 0 8192 2 sample_fir 32 sample_racing (EvTrigger 0 SNDRV_PCM_TRIGGER_STOP) = Some s0)
    by (eexists; vm_compute; reflexivity).
  destruct H0 as [s0 H0].
  assert (H1 : exists s1,
    run 4 0 8192 2 sample_fir 32 s0 [EvInterrupt; EvPointer 0] = Some s1).
  { vm_compute in H0. injection H0 as <-. eexists. vm_compute. reflexivity. }
  destruct H1 as [s1 H1].
  assert (H2 : exists s2, step 4 0 8192 2 sample_fir 32 s1 EvThreadLocked = Some s2).
  { vm_compute in H0. injection H0 as <-. vm_compute in H1. injection H1 as <-.
    eexists. vm_compute. reflexivity. }
  destruct H2 as [s2 H2].
  exists s0, s1, s2. split; [exact H0|]. split; [exact H1|]. split; [exact H2|].
  apply (stop_fences_bottom_half 4 0 8192 2 sample_fir 32 sample_racing 0%nat s0
           [EvInterrupt; EvPointer 0] EvThreadLocked s1 s2 H0 eq_refl H1 eq_refl H2).
Defined.

Lemma position_in_bounds_witness :
  exists s,
    run 4 0 8192 2 sample_fir 32 (probe_state 17 (repeat 0 32)) sample_session = Some s /\
    0 <= matrixio_pcm_pointer (kern s) < 4 * 4.
Proof.
  assert (H : exists s,
    run 4 0 8192 2 sample_fir 32 (probe_state 17 (repeat 0 32)) sample_session = Some s)
    by (eexists; vm_compute; reflexivity).
  destruct H as [s H]. exists s. split; [exact H|].
  apply (position_in_bounds 4 0 8192 2 sample_fir 32 ltac:(lia) 4 17 (repeat 0 32)
           sample_session s); try lia.
  - repeat constructor.
  - exact H.
Defined.

(** ** Concrete runs of the further properties *)

Lemma thread_outcome_witness :
  exists st' tail,
    matrixio_pcm_thread 4 8192 32 sample_running sample_read = Some (IRQ_HANDLED, st') /\
    klog st' = klog sample_running ++ tail /\
    In (PeriodElapsed 0) tail.
Proof.
  destruct (thread_outcome 4 8192 32 sample_running sample_read 0 sample_runtime
              eq_refl eq_refl)
    as (st' & tail & Hrun & Hlog & Hiff & _).
  exists st', tail. split; [exact Hrun|]. split; [exact Hlog|].
  apply Hiff. repeat split. discriminate.
Defined.

Lemma cycles_without_overflow_witness :
  exists st' tail,
    run_cycles 4 8192 32 sample_running [sample_read; sample_failed_read; sample_read]
      = Some st' /\
    klog st' = klog sample_running ++ tail /\
    (forall m, ~ In (PcmWarn m) tail) /\
    test_bit 1 st' = false.
Proof.
  destruct (cycles_without_overflow 4 8192 32
              [sample_read; sample_failed_read; sample_read] sample_running 0)
    as (st' & tail & Hrun & Hlog & Hw & Hx & _).
  - reflexivity.
  - exists sample_runtime. reflexivity.
  - reflexivity.
  - exists st', tail. auto.
Defined.

Lemma open_binds_witness :
  exists st',
    matrixio_pcm_open 4 sample_closed 0 0 = (0, st') /\
    substream (ms st') = Some 0%nat /\
    matrixio_pcm_interrupt st' = (IRQ_HANDLED, st').
Proof.
  destruct (open_binds 4 sample_closed 0 0) as (st' & Hrun & Hs & _ & _ & _ & _ & _ & Hi).
  - reflexivity.
  - lia.
  - exists st'. auto.
Defined.

Lemma open_irq_failure_witness :
  exists st',
    matrixio_pcm_open 4 sample_closed 0 (-16) = (-16, st') /\
    substream (ms st') = None /\
    fst (matrixio_pcm_open 4 st' 0 0) = 0.
Proof.
  destruct (open_irq_failure 4 sample_closed 0 (-16)) as (st' & Hrun & Hs & _ & _ & _ & Hre).
  - reflexivity.
  - lia.
  - exists st'. split; [exact Hrun|]. split; [exact Hs|]. apply Hre. lia.
Defined.

Lemma open_close_reopen_witness :
  fst (matrixio_pcm_open 4 sample_closed 0 0) = 0 /\
  fst (matrixio_pcm_open 4 (snd (matrixio_pcm_open 4 sample_closed 0 0)) 1 0) = - EBUSY.
Proof.
  destruct (open_close_reopen 4 sample_closed 0 1 0 0) as (H1 & H2 & _).
  - reflexivity.
  - lia.
  - lia.
  - split; [exact H1|exact H2].
Defined.

Lemma trigger_gates_top_half_witness :
  fst (matrixio_pcm_interrupt
         (snd (matrixio_pcm_trigger sample_open 0 SNDRV_PCM_TRIGGER_START)))
    = IRQ_WAKE_THREAD /\
  matrixio_pcm_trigger sample_open 0 5 = (- EINVAL, sample_open).
Proof.
  destruct (trigger_gates_top_half sample_open 0) as ((_ & H1) & _ & _ & H4).
  - discriminate.
  - split; [exact H1|]. apply H4; discriminate.
Defined.

Lemma prepare_resets_position_witness :
  exists st',
    matrixio_pcm_prepare 4 sample_running 0 = Some (0, st') /\
    matrixio_pcm_pointer st' = 0.
Proof.
  destruct (prepare_resets_position 4 sample_running 0 sample_runtime) as [H _].
  - reflexivity.
  - destruct H as (st' & Hrun & Hp & _); [reflexivity|].
    exists st'. auto.
Defined.

Lemma hw_free_releases_ring_witness :
  exists st' st'',
    matrixio_pcm_hw_free sample_running 0 = Some (0, st') /\
    klog st' = [SndBug] /\
    matrixio_pcm_thread 4 8192 32 st' sample_read = Some (IRQ_HANDLED, st'') /\
    position (ms st'') = 0.
Proof.
  destruct (hw_free_releases_ring 4 8192 32 sample_running 0 sample_runtime)
    as (st' & Hfree & _ & _ & Hlog & Hthread).
  - reflexivity.
  - destruct (Hthread eq_refl eq_refl sample_read eq_refl) as (st'' & Hrun & _ & Hpos & _).
    exists st', st''. auto.
Defined.

Lemma hw_params_partial_programming_witness :
  exists e,
    matrixio_pcm_hw_params 0 8192 2 sample_fir_cut sample_open 0
      (sample_params SNDRV_PCM_FORMAT_S16_LE 48000 4) true =
    Some (- EINVAL,
          emit [RegmapWrite (0 + 6) (decimation e); RegmapWrite (0 + 7) (gain e)]
            sample_open) /\
    rate e = 48000.
Proof.
  destruct (hw_params_partial_programming 0 8192 2 sample_fir_cut sample_open 0
              (sample_params SNDRV_PCM_FORMAT_S16_LE 48000 4) true)
    as (e & _ & Hr & Hrun).
  - reflexivity.
  - simpl. tauto.
  - reflexivity.
  - exists e. auto.
Defined.

Lemma accepted_rate_within_limits_witness :
  capture_hw_rate_min <= 48000 <= capture_hw_rate_max.
Proof.
  assert (H : exists st',
    matrixio_pcm_hw_params 0 8192 2 sample_fir sample_open 0
      (sample_params SNDRV_PCM_FORMAT_S16_LE 48000 4) true = Some (1, st'))
    by (eexists; vm_compute; reflexivity).
  destruct H as [st' H].
  apply (accepted_rate_within_limits 0 8192 2 sample_fir sample_open 0
           (sample_params SNDRV_PCM_FORMAT_S16_LE 48000 4) true 1 st').
  - simpl. lia.
  - exact H.
  - lia.
Defined.

Lemma lookup_fir_sentinel_witness :
  lookup_fir 48000 sample_fir_cut = None /\ lookup_fir 0 sample_fir_cut = None.
Proof.
  destruct (lookup_fir_sentinel 48000 [ {| rate_ := 8000; coeff_ := [8; 1] |} ]
              {| rate_ := 0; coeff_ := [] |} [ {| rate_ := 48000; coeff_ := [48; 1] |} ])
    as [H1 H2].
  - reflexivity.
  - split; [|exact H2].
    transitivity (lookup_fir 48000 [ {| rate_ := 8000; coeff_ := [8; 1] |} ]);
      [exact H1|reflexivity].
Defined.

Lemma one_open_substream_witness :
  exists s,
    run 4 0 8192 2 sample_fir 32 (probe_state 17 (repeat 0 32)) sample_session = Some s /\
    substream (ms (kern s)) = Some 0%nat /\
    fst (matrixio_pcm_open 4 (kern s) 1 0) = - EBUSY.
Proof.
  assert (H : exists s,
    run 4 0 8192 2 sample_fir 32 (probe_state 17 (repeat 0 32)) sample_session = Some s /\
    substream (ms (kern s)) = Some 0%nat)
    by (eexists; split; vm_compute; reflexivity).
  destruct H as (s & H & Hs). exists s. split; [exact H|]. split; [exact Hs|].
  destruct (one_open_substream 4 0 8192 2 sample_fir 32 17 (repeat 0 32) sample_session s H)
    as [Hdom Hbusy].
  apply (Hbusy 0%nat). apply Hdom. exact Hs.
Defined.


Lemma position_on_period_boundary_witness :
  exists s k,
    run 4 0 8192 2 sample_fir 32 (probe_state 17 (repeat 0 32)) sample_session = Some s /\
    0 <= k < 4 /\ matrixio_pcm_pointer (kern s) = k * 4.
Proof.
  assert (H : exists s,
    run 4 0 8192 2 sample_fir 32 (probe_state 17 (repeat 0 32)) sample_session = Some s)
    by (eexists; vm_compute; reflexivity).
  destruct H as [s H].
  destruct (position_on_period_boundary 4 0 8192 2 sample_fir 32 ltac:(lia) 4 17
              (repeat 0 32) sample_session s) as [(k & Hk & Hp) _]; try lia.
  - repeat constructor.
  - exact H.
  - exists s, k. auto.
Defined.

Lemma bottom_half_stays_in_ring_witness :
  exists s s' rt' area',
    run 4 0 8192 2 sample_fir 32 (probe_state 17 (repeat 0 32)) sample_session_at_lock
      = Some s /\
    step 4 0 8192 2 sample_fir 32 s EvThreadLocked = Some s' /\
    pcm (kern s') !! 0%nat = Some rt' /\ dma_area rt' = Some area' /\
    area' !! 32 = None.
Proof.
  assert (H : exists s s' rt' area',
    run 4 0 8192 2 sample_fir 32 (probe_state 17 (repeat 0 32)) sample_session_at_lock
      = Some s /\
    step 4 0 8192 2 sample_fir 32 s EvThreadLocked = Some s' /\
    pcm (kern s) !! 0%nat = Some sample_runtime /\
    pcm (kern s') !! 0%nat = Some rt' /\ dma_area rt' = Some area')
    by (eexists _, _, _, _; repeat split; vm_compute; reflexivity).
  destruct H as (s & s' & rt' & area' & Hrun & Hstep & Hrt & Hrt' & Hd').
  exists s, s', rt', area'. repeat (split; [assumption|]).
  rewrite (bottom_half_stays_in_ring 4 0 8192 2 sample_fir 32 ltac:(lia) 4 17
             (repeat 0 32) sample_session_at_lock s s' 0%nat sample_runtime ∅ rt' area' 32);
    try assumption; try reflexivity; try lia.
  - repeat constructor.
  - simpl. lia.
Defined.

Lemma pcm_pointer_clamps_witness :
  fst (Pcm.matrixio_pcm_pointer (Pcm.set_position 1024 sample_pcm) sample_pcm_runtime) = 0.
Proof.
  destruct (pcm_pointer_clamps (Pcm.set_position 1024 sample_pcm) sample_pcm_runtime)
    as (_ & _ & _ & H & _).
  - simpl. lia.
  - simpl. lia.
  - apply H. simpl. lia.
Defined.

Lemma pcm_capture_goes_round_witness :
  Pcm.position (Pcm.capture_periods 32 sample_pcm sample_pcm_runtime [[1; 2]; [3]]) = 256.
Proof.
  rewrite (pcm_capture_goes_round 32 ltac:(lia) [[1; 2]; [3]] sample_pcm
             sample_pcm_runtime 4 3); try reflexivity; simpl; lia.
Defined.

Lemma pcm_interrupt_inits_once_witness :
  Pcm.log (snd (Pcm.matrixio_pcm_interrupt (snd (Pcm.matrixio_pcm_interrupt sample_pcm))))
  = [Pcm.InitWork; Pcm.QueueWork; Pcm.QueueWork].
Proof.
  destruct (pcm_interrupt_inits_once sample_pcm) as [_ H].
  destruct H as (_ & _ & _ & Hlog); [discriminate|]. exact Hlog.
Defined.
